(** * The tool pipeline of the thinking-mode chat: tools.py and llm_thinking_mode.py

  A shallow embedding of the file-system tool set and its dispatcher
  ([Tools.read_file], [Tools.list_dir], [Tools.execute_tool]), of the
  context-budget tracker, of the thinking/answer splitter and of the
  tool-call extractor, followed by the statements proved about them.

  Text.  A Python [str] is modelled by [string]; one [ascii] stands for one
  code point below 256, and the character classes below are the ones CPython
  uses for those code points.  The two pictographs of the directory listing
  lie outside that range and are kept as their UTF-8 bytes; nothing depends
  on them.  Integers are unbounded ([Z]); a conversion between [int] and
  [str] fails above 4300 digits, which is CPython's default limit. *)

From Stdlib Require Import ZArith QArith String Ascii List DecimalString Lia.
From Stdlib Require Import Floats Uint63.
From stdpp Require Import gmap strings.

Open Scope string_scope.

(** ** Python strings *)

Module Str.

Definition chr (n : nat) : string := String (ascii_of_nat n) "".

(** Characters that cannot be written inside a literal. *)
Definition nl : string := chr 10.
Definition dquote : string := chr 34.
Definition squote : string := chr 39.

Definition code (c : ascii) : nat := nat_of_ascii c.

Definition between (lo hi n : nat) : bool := (lo <=? n)%nat && (n <=? hi)%nat.

(** [str.isspace] for one character, also the class [\s]. *)
Definition isspace (c : ascii) : bool :=
  let n := code c in
  between 9 13 n || between 28 32 n || (n =? 133)%nat || (n =? 160)%nat.

(** [str.isdecimal] for one character, also the class [\d]. *)
Definition isdecimal (c : ascii) : bool := between 48 57 (code c).

(** [str.isdigit] for one character: the decimals and the superscripts. *)
Definition isdigit_char (c : ascii) : bool :=
  let n := code c in
  between 48 57 n || (n =? 178)%nat || (n =? 179)%nat || (n =? 185)%nat.

Definition isalpha (c : ascii) : bool :=
  let n := code c in
  between 65 90 n || between 97 122 n || (n =? 170)%nat || (n =? 181)%nat
  || (n =? 186)%nat || between 192 214 n || between 216 246 n
  || between 248 255 n.

(** [str.isalnum] for one character. *)
Definition isalnum (c : ascii) : bool :=
  let n := code c in
  isalpha c || isdigit_char c || between 188 190 n.

(** The class [\w]. *)
Definition isword (c : ascii) : bool := isalnum c || (code c =? 95)%nat.

Definition lower_char (c : ascii) : ascii :=
  let n := code c in
  if between 65 90 n || between 192 214 n || between 216 222 n
  then ascii_of_nat (n + 32) else c.

Fixpoint lower (s : string) : string :=
  match s with
  | "" => ""
  | String c s' => String (lower_char c) (lower s')
  end.

Definition len (s : string) : Z := Z.of_nat (String.length s).

(** [s.lstrip()], [s.rstrip()] and [s.strip()] without argument. *)
Fixpoint lstrip (s : string) : string :=
  match s with
  | "" => ""
  | String c s' => if isspace c then lstrip s' else s
  end.

Fixpoint rstrip (s : string) : string :=
  match s with
  | "" => ""
  | String c s' =>
      match rstrip s' with
      | "" => if isspace c then "" else String c ""
      | r => String c r
      end
  end.

Definition strip (s : string) : string := lstrip (rstrip s).

(** [q in s] for a character [q]. *)
Fixpoint has_char (q : ascii) (s : string) : bool :=
  match s with
  | "" => false
  | String c s' => Ascii.eqb c q || has_char q s'
  end.

(** [s.isdigit()]: non-empty and every character a digit. *)
Fixpoint all_chars (p : ascii -> bool) (s : string) : bool :=
  match s with
  | "" => true
  | String c s' => p c && all_chars p s'
  end.

Definition isdigit (s : string) : bool :=
  negb (String.eqb s "") && all_chars isdigit_char s.

Fixpoint startswith (p s : string) : bool :=
  match p, s with
  | "", _ => true
  | String a p', String b s' => Ascii.eqb a b && startswith p' s'
  | String _ _, "" => false
  end.

Fixpoint endswith_from (p s : string) : bool :=
  String.eqb p s ||
  match s with
  | "" => false
  | String _ s' => endswith_from p s'
  end.

Definition endswith (p s : string) : bool := endswith_from p s.

(** [sep.join(parts)]. *)
Fixpoint join (sep : string) (parts : list string) : string :=
  match parts with
  | [] => ""
  | [p] => p
  | p :: rest => p ++ sep ++ join sep rest
  end.

(** [''.join(parts)]. *)
Fixpoint concat (parts : list string) : string :=
  match parts with
  | [] => ""
  | p :: rest => p ++ concat rest
  end.

(** The decimal numeral of an integer. *)
Definition numeral (n : Z) : string := NilZero.string_of_int (Z.to_int n).

(** The limit on the conversions between [int] and [str]: 4300 digits.
    [int_limit] is 10 ^ 4300, the least integer with more digits. *)
Definition max_str_digits : Z := 4300.
Definition int_limit : Z := Eval vm_compute in (10 ^ 4300)%Z.

(** [str(n)] for an integer; [None] stands for the [ValueError] of an
    integer of more than 4300 digits. *)
Definition of_Z (n : Z) : option string :=
  if (Z.abs n <? int_limit)%Z then Some (numeral n) else None.

(** [int(s)] for a string of decimals of at most 4300 characters; [None]
    stands for [ValueError]. *)
Fixpoint int_digits (acc : Z) (s : string) : option Z :=
  match s with
  | "" => Some acc
  | String c s' =>
      if isdecimal c
      then int_digits (10 * acc + Z.of_nat (code c - 48)) s'
      else None
  end.

Definition to_int (s : string) : option Z :=
  match s with
  | "" => None
  | _ => if (max_str_digits <? len s)%Z then None else int_digits 0 s
  end.

(** [s[1:-1]]. *)
Fixpoint drop_last (s : string) : string :=
  match s with
  | "" => ""
  | String c "" => ""
  | String c s' => String c (drop_last s')
  end.

Definition strip_ends (s : string) : string :=
  match s with
  | "" => ""
  | String _ s' => drop_last s'
  end.

(** [s.split(sep, 1)] for a non-empty separator: the text before and after
    the first occurrence of [sep], or nothing when [sep] does not occur. *)
Fixpoint split_once (sep s : string) : option (string * string) :=
  if startswith sep s
  then Some ("", String.substring (String.length sep) (String.length s) s)
  else match s with
       | "" => None
       | String c s' =>
           match split_once sep s' with
           | Some (a, b) => Some (String c a, b)
           | None => None
           end
       end.

(** Python's list slice [l[i:j]]. *)
Definition slice_index (n i : Z) : Z :=
  if (i <? 0)%Z then Z.max 0 (i + n) else Z.min i n.

Definition slice {A} (l : list A) (i j : Z) : list A :=
  let n := Z.of_nat (List.length l) in
  let a := slice_index n i in
  let b := slice_index n j in
  firstn (Z.to_nat (b - a)) (skipn (Z.to_nat a) l).

(** [sorted] on strings: ascending by code point. *)
Fixpoint insert_sorted (x : string) (l : list string) : list string :=
  match l with
  | [] => [x]
  | y :: l' => if String.leb x y then x :: l else y :: insert_sorted x l'
  end.

Definition sorted (l : list string) : list string :=
  fold_right insert_sorted [] l.

End Str.

(** ** tools.py *)

Module Tools.

(** A parameter value as the extractor produces it. *)
Inductive value :=
| VStr (s : string)
| VBool (b : bool)
| VInt (n : Z).

(** [type(v).__name__]. *)
Definition type_name (v : value) : string :=
  match v with
  | VStr _ => "str"
  | VBool _ => "bool"
  | VInt _ => "int"
  end.

(** [bool(v)]. *)
Definition truthy (v : value) : bool :=
  match v with
  | VStr s => negb (String.eqb s "")
  | VBool b => b
  | VInt n => negb (n =? 0)%Z
  end.

(** Exceptions, by the handler that catches them, with [str(e)]. *)
Inductive exn_kind :=
| UnicodeDecodeError | PermissionError | TypeError | ValueError | OtherError.

Record exn := Exn { exn_class : exn_kind; exn_text : string }.

(** A computation inside a [try] block. *)
Definition try_ (A : Type) : Type := exn + A.

Definition ret {A} (a : A) : try_ A := inr a.
Definition raise {A} (e : exn) : try_ A := inl e.
Definition bind {A B} (m : try_ A) (k : A -> try_ B) : try_ B :=
  match m with
  | inl e => inl e
  | inr a => k a
  end.

Notation "'let*' x ':=' m 'in' k" := (bind m (fun x => k))
  (at level 10, x name, m at level 200, k at level 200).

(** [str(n)] for an integer, with the error of the limit on digits. *)
Definition str_int (n : Z) : try_ string :=
  match Str.of_Z n with
  | Some text => ret text
  | None =>
      raise (Exn ValueError
               ("Exceeds the limit (4300 digits) for integer string conversion; "
                ++ "use sys.set_int_max_str_digits() to increase the limit"))
  end.

(** [f"{v}"]. *)
Definition format (v : value) : try_ string :=
  match v with
  | VStr s => ret s
  | VBool true => ret "True"
  | VBool false => ret "False"
  | VInt n => str_int n
  end.

(** The integer behind the left operand of [v < other]; a [bool] is an
    [int], and a [str] against a number raises [TypeError]. *)
Definition as_int (other : value) (v : value) : try_ Z :=
  match v with
  | VInt n => ret n
  | VBool b => ret (Z.b2z b)
  | VStr _ =>
      raise (Exn TypeError
               ("'<' not supported between instances of 'str' and '"
                ++ type_name other ++ "'"))
  end.

(** The string behind a value used as a path ([os.fspath]). *)
Definition as_path (v : value) : try_ string :=
  match v with
  | VStr s => ret s
  | _ =>
      raise (Exn TypeError
               ("expected str, bytes or os.PathLike object, not " ++ type_name v))
  end.

(** The operating system as the tools see it: [os.path] and the files. *)
Record world := World {
  path_isabs : string -> bool;
  path_join : string -> string -> string;
  path_exists : string -> bool;
  path_isdir : string -> bool;
  (** [open(p, 'r', encoding='utf-8')] followed by [readlines()] *)
  open_readlines : string -> try_ (list string);
  listdir : string -> try_ (list string);
  getsize : string -> try_ Z
}.

Record ToolResult := mkToolResult {
  success : bool;
  content : string;
  error : option string
}.

Definition ok (c : string) : ToolResult := mkToolResult true c None.
Definition failed (e : string) : ToolResult := mkToolResult false "" (Some e).

(** What a call gives its caller: a returned result or a raised exception. *)
Inductive outcome :=
| Returned (r : ToolResult)
| Raised (e : exn_kind).

Record Tools := mkTools { workspace_root : string }.

Definition create_tools (workspace_root : string) : Tools := mkTools workspace_root.

(** A path as given when absolute, under the workspace root otherwise. *)
Definition resolve (w : world) (self : Tools) (path : string) : string :=
  if path_isabs w path then path else path_join w (workspace_root self) path.

(** The body of the [try] block of [read_file]. *)
Definition read_file_try (w : world) (self : Tools)
    (target_file should_read_entire_file start_line_one_indexed
     end_line_one_indexed_inclusive explanation : value) : try_ ToolResult :=
  let* path := as_path target_file in
  let file_path := resolve w self path in
  if negb (path_exists w file_path)
  then ret (failed ("File not found: " ++ path))
  else
    let* lines := open_readlines w file_path in
    let total_lines := Z.of_nat (List.length lines) in
    if truthy should_read_entire_file then
      let content := Str.concat lines in
      let* total := str_int total_lines in
      ret (ok ("Contents of " ++ path ++ ", lines 1-" ++ total
               ++ " (entire file):" ++ Str.nl ++ "```" ++ Str.nl
               ++ Str.rstrip content ++ Str.nl ++ "```"))
    else
      let* start := as_int (VInt 1) start_line_one_indexed in
      if (start <? 1)%Z then ret (failed "Start line must be >= 1") else
      let* end_ := as_int start_line_one_indexed end_line_one_indexed_inclusive in
      if (end_ <? start)%Z then ret (failed "End line must be >= start line") else
      let start_idx := (start - 1)%Z in
      let end_idx := Z.min end_ total_lines in
      let lines_to_read := (end_idx - start_idx)%Z in
      if (250 <? lines_to_read)%Z
      then ret (failed "Cannot read more than 250 lines at once")
      else
        let requested_lines := Str.slice lines start_idx end_idx in
        let content := Str.concat requested_lines in
        let lines_before := (start - 1)%Z in
        let lines_after := (total_lines - end_)%Z in
        let* before :=
          if (0 <? lines_before)%Z
          then let* n := str_int lines_before in
               ret ["Lines 1-" ++ n ++ " not shown"]
          else ret [] in
        let* after :=
          if (0 <? lines_after)%Z
          then let* n := str_int (end_ + 1) in
               let* total := str_int total_lines in
               ret ["Lines " ++ n ++ "-" ++ total ++ " not shown"]
          else ret [] in
        let summary_parts := List.app before after in
        let summary :=
          match summary_parts with
          | [] => "Complete file section shown"
          | _ => Str.join " | " summary_parts
          end in
        let* header :=
          if (total_lines <? end_)%Z
          then let* first := format start_line_one_indexed in
               let* last := format end_line_one_indexed_inclusive in
               let* total := str_int total_lines in
               ret ("Requested to read lines " ++ first ++ "-" ++ last
                    ++ ", but returning lines " ++ first ++ "-" ++ total
                    ++ " (end of file)." ++ Str.nl)
          else (* min(end, total) keeps the argument it returns *)
               let* first := format start_line_one_indexed in
               let* actual_end := format end_line_one_indexed_inclusive in
               ret ("Contents of " ++ path ++ ", lines " ++ first
                    ++ "-" ++ actual_end ++ ":" ++ Str.nl) in
        let result_content :=
          header ++ "```" ++ Str.nl ++ Str.rstrip content ++ Str.nl ++ "```" in
        let result_content :=
          match summary_parts with
          | [] => result_content
          | _ => result_content ++ Str.nl ++ Str.nl ++ "Summary: " ++ summary
          end in
        ret (ok result_content).

(** A handler that names the argument [v] in its message: formatting an
    integer above the limit raises inside the handler, and that exception
    leaves the function. *)
Definition handler (v : value) (message : string -> string) : outcome :=
  match format v with
  | inr name => Returned (failed (message name))
  | inl (Exn kind _) => Raised kind
  end.

(** [read_file]: the [try] block and its three handlers. *)
Definition read_file (w : world) (self : Tools)
    (target_file should_read_entire_file start_line_one_indexed
     end_line_one_indexed_inclusive explanation : value) : outcome :=
  match read_file_try w self target_file should_read_entire_file
          start_line_one_indexed end_line_one_indexed_inclusive explanation with
  | inr r => Returned r
  | inl (Exn UnicodeDecodeError _) =>
      handler target_file (fun name =>
        "Cannot read file " ++ name ++ ": File contains non-UTF-8 content")
  | inl (Exn PermissionError _) =>
      handler target_file (fun name => "Permission denied reading file: " ++ name)
  | inl (Exn _ text) =>
      handler target_file (fun name =>
        "Error reading file " ++ name ++ ": " ++ text)
  end.

(** One entry of the listing: a directory, or a file with its size bucket. *)
Definition list_dir_item (w : world) (dir_path item : string) : try_ string :=
  let item_path := path_join w dir_path item in
  if path_isdir w item_path
  then ret ("📁 " ++ item ++ "/")
  else
    let* size := getsize w item_path in
    let* size_str :=
      if (size <? 1024)%Z
      then let* n := str_int size in ret (n ++ "B")
      else if (size <? 1024 * 1024)%Z
      then let* n := str_int (size / 1024) in ret (n ++ "KB")
      else let* n := str_int (size / (1024 * 1024)) in ret (n ++ "MB") in
    ret ("📄 " ++ item ++ " (" ++ size_str ++ ")").

Fixpoint list_dir_items (w : world) (dir_path : string) (names : list string)
    : try_ (list string) :=
  match names with
  | [] => ret []
  | item :: rest =>
      let* entry := list_dir_item w dir_path item in
      let* entries := list_dir_items w dir_path rest in
      ret (entry :: entries)
  end.

(** The directory a listing is asked for: the workspace root for ["."],
    a path under it otherwise; [os.path.join] raises [TypeError] on a
    value that is no string. *)
Definition resolve_dir (w : world) (self : Tools) (relative_workspace_path : value)
    : try_ string :=
  match relative_workspace_path with
  | VStr "." => ret (workspace_root self)
  | VStr p => ret (path_join w (workspace_root self) p)
  | v => raise (Exn TypeError
                  ("join() argument must be str, bytes, or os.PathLike object, not '"
                   ++ type_name v ++ "'"))
  end.

(** The body of the outer [try] block of [list_dir]; the inner block turns a
    [PermissionError] of the enumeration into a result. *)
Definition list_dir_try (w : world) (self : Tools)
    (relative_workspace_path explanation : value) : try_ ToolResult :=
  let* dir_path := resolve_dir w self relative_workspace_path in
  let* rel := format relative_workspace_path in
  if negb (path_exists w dir_path)
  then ret (failed ("Directory not found: " ++ rel))
  else if negb (path_isdir w dir_path)
  then ret (failed ("Path is not a directory: " ++ rel))
  else
    match (let* names := listdir w dir_path in
           list_dir_items w dir_path (Str.sorted names)) with
    | inl (Exn PermissionError _) =>
        ret (failed ("Permission denied accessing directory: " ++ rel))
    | inl e => raise e
    | inr items =>
        let content :=
          match items with
          | [] => "Directory '" ++ rel ++ "' is empty."
          | _ => "Contents of '" ++ rel ++ "':" ++ Str.nl ++ Str.join Str.nl items
          end in
        ret (ok content)
    end.

Definition list_dir (w : world) (self : Tools)
    (relative_workspace_path explanation : value) : outcome :=
  match list_dir_try w self relative_workspace_path explanation with
  | inr r => Returned r
  | inl (Exn _ text) =>
      handler relative_workspace_path (fun name =>
        "Error listing directory " ++ name ++ ": " ++ text)
  end.

Definition read_file_params : list string :=
  ["target_file"; "should_read_entire_file"; "start_line_one_indexed";
   "end_line_one_indexed_inclusive"; "explanation"].

Definition list_dir_params : list string :=
  ["relative_workspace_path"; "explanation"].

(** The keys of [kwargs] that name no parameter of the callee. *)
Definition unexpected (params : list string) (kwargs : gmap string value)
    : list string :=
  filter (fun k => k ∉ params) (map fst (map_to_list kwargs)).

(** [self.read_file] called with the entries of [kwargs] as keywords: a keyword that names no parameter, or a
    parameter left without argument, raises [TypeError] at the call. *)
Definition call_read_file (w : world) (self : Tools) (kwargs : gmap string value)
    : outcome :=
  match unexpected read_file_params kwargs with
  | _ :: _ => Raised TypeError
  | [] =>
      match kwargs !! "target_file", kwargs !! "should_read_entire_file",
            kwargs !! "start_line_one_indexed",
            kwargs !! "end_line_one_indexed_inclusive", kwargs !! "explanation" with
      | Some t, Some b, Some s, Some e, Some x => read_file w self t b s e x
      | _, _, _, _, _ => Raised TypeError
      end
  end.

(** [self.list_dir] called with the entries of [kwargs] as keywords. *)
Definition call_list_dir (w : world) (self : Tools) (kwargs : gmap string value)
    : outcome :=
  match unexpected list_dir_params kwargs with
  | _ :: _ => Raised TypeError
  | [] =>
      match kwargs !! "relative_workspace_path", kwargs !! "explanation" with
      | Some p, Some x => list_dir w self p x
      | _, _ => Raised TypeError
      end
  end.

(** [param not in kwargs], over the required parameters in their order. *)
Definition missing_params (required_params : list string)
    (kwargs : gmap string value) : list string :=
  filter (fun param => kwargs !! param = None) required_params.

(** The keywords that [execute_tool] cannot take into [kwargs]: the names of
    its own two parameters. *)
Definition bound_twice (kwargs : gmap string value) : bool :=
  bool_decide (is_Some (kwargs !! "self"))
  || bool_decide (is_Some (kwargs !! "tool_name")).

(** [self.execute_tool(tool_name, **kwargs)], the tool name given by
    position: a keyword [self] or [tool_name] gives a parameter a second
    value, and the call raises [TypeError] before the body runs. *)
Definition execute_tool (w : world) (self : Tools) (tool_name : string)
    (kwargs : gmap string value) : outcome :=
  if bound_twice kwargs then Raised TypeError
  else if String.eqb tool_name "read_file" then
    let required_params :=
      ["target_file"; "should_read_entire_file"; "start_line_one_indexed";
       "end_line_one_indexed_inclusive"; "explanation"] in
    match missing_params required_params kwargs with
    | (_ :: _) as missing =>
        Returned (failed ("Missing required parameters: " ++ Str.join ", " missing))
    | [] => call_read_file w self kwargs
    end
  else if String.eqb tool_name "list_dir" then
    let required_params := ["relative_workspace_path"; "explanation"] in
    match missing_params required_params kwargs with
    | (_ :: _) as missing =>
        Returned (failed ("Missing required parameters: " ++ Str.join ", " missing))
    | [] => call_list_dir w self kwargs
    end
  else Returned (failed ("Unknown tool: " ++ tool_name)).

End Tools.

(** ** The regular expressions of the [re] module

    The patterns of the program repeat single characters only and nest no
    groups, so a repetition ranges over a character class and a group is
    numbered by the order in which it closes.  [run] lists the ways a pattern
    matches at the head of the text in the order in which the backtracking
    matcher tries them; a search takes the first one. *)

Module Re.

Inductive regex :=
| Eps
| Chr (p : ascii -> bool)
| Seq (r1 r2 : regex)
| Alt (r1 r2 : regex)
| Star (p : ascii -> bool)
| LazyStar (p : ascii -> bool)
| Group (r : regex).

(** Captured groups so far, and the text still to be read. *)
Definition state : Type := list string * string.

(** The remainders after [p*], longest repetition first. *)
Fixpoint star_greedy (p : ascii -> bool) (s : string) : list string :=
  match s with
  | String c s' => if p c then List.app (star_greedy p s') [s] else [s]
  | "" => [""]
  end.

(** The remainders after [p*?], shortest repetition first. *)
Fixpoint star_lazy (p : ascii -> bool) (s : string) : list string :=
  match s with
  | String c s' => if p c then s :: star_lazy p s' else [s]
  | "" => [""]
  end.

(** The text read between [s] and its suffix [rest]. *)
Definition consumed (s rest : string) : string :=
  String.substring 0 (String.length s - String.length rest) s.

Fixpoint run (r : regex) (st : state) : list state :=
  match r with
  | Eps => [st]
  | Chr p =>
      match snd st with
      | String c s' => if p c then [(fst st, s')] else []
      | "" => []
      end
  | Seq r1 r2 => List.flat_map (run r2) (run r1 st)
  | Alt r1 r2 => List.app (run r1 st) (run r2 st)
  | Star p => List.map (fun s' => (fst st, s')) (star_greedy p (snd st))
  | LazyStar p => List.map (fun s' => (fst st, s')) (star_lazy p (snd st))
  | Group r' =>
      List.map (fun st' => (List.app (fst st') [consumed (snd st) (snd st')], snd st'))
               (run r' st)
  end.

(** The first match at the head of [s]: its groups and the text after it. *)
Definition match_here (r : regex) (s : string) : option state :=
  match run r ([], s) with
  | st :: _ => Some st
  | [] => None
  end.

(** [re.search]: the leftmost match, as the text before it, its groups and
    the text after it. *)
Fixpoint search (r : regex) (s : string) : option (string * list string * string) :=
  match match_here r s with
  | Some (groups, rest) => Some ("", groups, rest)
  | None =>
      match s with
      | "" => None
      | String c s' =>
          match search r s' with
          | Some (before, groups, rest) => Some (String c before, groups, rest)
          | None => None
          end
      end
  end.

(** [re.findall]: the groups of the successive matches, each search starting
    where the previous match ended.  [covered] counts the characters of the
    current position that the previous match still covers. *)
Fixpoint findall_from (r : regex) (covered : nat) (s : string) : list (list string) :=
  match covered, s with
  | S k, String _ s' => findall_from r k s'
  | S _, "" => []
  | O, _ =>
      match match_here r s with
      | Some (groups, rest) =>
          groups ::
          match s with
          | String _ s' =>
              findall_from r (Nat.pred (String.length s - String.length rest)) s'
          | "" => []
          end
      | None =>
          match s with
          | String _ s' => findall_from r 0 s'
          | "" => []
          end
      end
  end.

Definition findall (r : regex) (s : string) : list (list string) :=
  findall_from r 0 s.

(** [re.sub(r, '', s)]: the text with every match removed. *)
Fixpoint remove_from (r : regex) (covered : nat) (s : string) : string :=
  match covered, s with
  | S k, String _ s' => remove_from r k s'
  | S _, "" => ""
  | O, _ =>
      match match_here r s with
      | Some (_, rest) =>
          match s with
          | String c s' =>
              match (String.length s - String.length rest)%nat with
              | O => String c (remove_from r 0 s')
              | S k => remove_from r k s'
              end
          | "" => ""
          end
      | None =>
          match s with
          | String c s' => String c (remove_from r 0 s')
          | "" => ""
          end
      end
  end.

Definition remove_all (r : regex) (s : string) : string := remove_from r 0 s.

(** *** Pattern syntax *)

Definition exactly (c : ascii) : ascii -> bool := Ascii.eqb c.

(** A character under [re.IGNORECASE]. *)
Definition is_nocase (c : ascii) : ascii -> bool :=
  fun x => Ascii.eqb (Str.lower_char x) (Str.lower_char c).

Fixpoint chars (f : ascii -> ascii -> bool) (s : string) : regex :=
  match s with
  | "" => Eps
  | String c "" => Chr (f c)
  | String c s' => Seq (Chr (f c)) (chars f s')
  end.

(** A literal, and a literal under [re.IGNORECASE]. *)
Definition lit (s : string) : regex := chars exactly s.
Definition lit_nocase (s : string) : regex := chars is_nocase s.

(** [p+]. *)
Definition plus (p : ascii -> bool) : regex := Seq (Chr p) (Star p).

(** [.] under [re.DOTALL]. *)
Definition any : ascii -> bool := fun _ => true.

Definition space : ascii -> bool := Str.isspace.
Definition word : ascii -> bool := Str.isword.
Definition digit : ascii -> bool := Str.isdecimal.

(** The class of the two quote characters, and its complement. *)
Definition quote : ascii -> bool :=
  fun c => (Str.code c =? 34)%nat || (Str.code c =? 39)%nat.
Definition not_quote : ascii -> bool := fun c => negb (quote c).

Fixpoint seq (rs : list regex) : regex :=
  match rs with
  | [] => Eps
  | [r] => r
  | r :: rs' => Seq r (seq rs')
  end.

End Re.

(** ** llm_thinking_mode.py *)

Module Chat.

Import Tools.

(** *** Context monitoring

    [MAX_CONTEXT_TOKENS] is computed once from [MODEL_NAME]; it is kept as a
    function of the model name, which the script asks its user to adapt.

    The percentage is a binary64 number in the program.  It is modelled by the
    exact rational: every window of [CONTEXT_LIMITS], and the default, is a
    power of two, so for a history below 2^46 tokens the quotient and its
    product with 100 are computed without rounding, and the two thresholds
    [0.8 * 100] and [0.9 * 100] round to 80 and 90 exactly.  The binary64
    computation itself is [status_binary64] below; the statements compare the
    two. *)

Definition MODEL_NAME : string := "llama-3.2-3b".

Definition CONTEXT_LIMITS : gmap string Z :=
  list_to_map
    [("llama-3.2-1b", 8192%Z); ("llama-3.2-3b", 32768%Z);
     ("llama-3.2-8b", 131072%Z); ("llama-3.2", 32768%Z)].

Definition MAX_CONTEXT_TOKENS (model_name : string) : Z :=
  default 32768%Z (CONTEXT_LIMITS !! model_name).

Definition WARNING_THRESHOLD : Q := 8 # 10.
Definition CRITICAL_THRESHOLD : Q := 9 # 10.

Record message := mkMessage { role : string; content : string }.

Inductive status := OK | WARNING | CRITICAL.

Definition estimate_tokens (text : string) : Z := (Str.len text / 4)%Z.

Definition count_message_tokens (messages : list message) : Z :=
  fold_left
    (fun total_tokens message =>
       let content_tokens := estimate_tokens (content message) in
       (total_tokens + (content_tokens + 10))%Z)
    messages 0%Z.

Definition get_context_usage (model_name : string) (messages : list message)
    : Z * Z * Q * status :=
  let current_tokens := count_message_tokens messages in
  let max_tokens := MAX_CONTEXT_TOKENS model_name in
  let usage_percentage :=
    (inject_Z current_tokens / inject_Z max_tokens * 100)%Q in
  let status :=
    if Qle_bool (CRITICAL_THRESHOLD * 100) usage_percentage then CRITICAL
    else if Qle_bool (WARNING_THRESHOLD * 100) usage_percentage then WARNING
    else OK in
  (current_tokens, max_tokens, usage_percentage, status).

(** The same computation in binary64, as Python carries it out.  An [int]
    below 2^53 converts exactly; [0.8] and [0.9] are the doubles nearest to
    the decimal literals. *)
Definition binary64_of_int (n : Z) : float :=
  PrimFloat.of_uint63 (Uint63.of_Z n).

Definition WARNING_THRESHOLD_binary64 : float := 0x1.999999999999ap-1%float.
Definition CRITICAL_THRESHOLD_binary64 : float := 0x1.ccccccccccccdp-1%float.

Definition usage_percentage_binary64 (current_tokens max_tokens : Z) : float :=
  PrimFloat.mul
    (PrimFloat.div (binary64_of_int current_tokens)
       (binary64_of_int max_tokens))
    (binary64_of_int 100).

Definition status_binary64 (current_tokens max_tokens : Z) : status :=
  let usage_percentage :=
    usage_percentage_binary64 current_tokens max_tokens in
  if PrimFloat.leb
       (PrimFloat.mul CRITICAL_THRESHOLD_binary64 (binary64_of_int 100))
       usage_percentage
  then CRITICAL
  else if PrimFloat.leb
            (PrimFloat.mul WARNING_THRESHOLD_binary64 (binary64_of_int 100))
            usage_percentage
  then WARNING
  else OK.

(** The budget status in integers, and the check that the binary64 status
    equals it on the [2 ^ k] token counts from [current] on. *)
Definition status_of_ratio (current window : Z) : status :=
  if (90 * window <=? 100 * current)%Z then CRITICAL
  else if (80 * window <=? 100 * current)%Z then WARNING
  else OK.

Definition status_eqb (a b : status) : bool :=
  match a, b with
  | OK, OK | WARNING, WARNING | CRITICAL, CRITICAL => true
  | _, _ => false
  end.

Fixpoint binary64_agrees (k : nat) (current window : Z) : bool :=
  match k with
  | O => status_eqb (status_binary64 current window)
           (status_of_ratio current window)
  | S k' =>
      binary64_agrees k' current window
      && binary64_agrees k' (current + 2 ^ Z.of_nat k')%Z window
  end.

(** *** Thinking and final answer *)

(** [m.group(n)] for a group that took part in the match. *)
Definition group (groups : list string) (n : nat) : string :=
  nth (Nat.pred n) groups "".

(** [<thinking>(.*?)</thinking>] under [re.DOTALL]. *)
Definition thinking_pattern : Re.regex :=
  Re.seq [Re.lit "<thinking>"; Re.Group (Re.LazyStar Re.any); Re.lit "</thinking>"].

(** [<thinking>.*?</thinking>\s*] under [re.DOTALL]. *)
Definition thinking_block_pattern : Re.regex :=
  Re.seq [Re.lit "<thinking>"; Re.LazyStar Re.any; Re.lit "</thinking>";
          Re.Star Re.space].

Definition parse_thinking_response (response : string) : string * string :=
  match Re.search thinking_pattern response with
  | Some (_, groups, _) =>
      let thinking_process := Str.strip (group groups 1) in
      let final_answer :=
        Str.strip (Re.remove_all thinking_block_pattern response) in
      (thinking_process, final_answer)
  | None =>
      match Str.split_once (Str.nl ++ Str.nl) response with
      | Some (first, second) => (first, second)
      | None => ("No explicit thinking process found", response)
      end
  end.

(** *** Tool calls *)

(** [TOOL:(\w+)\((.*?)\)] under [re.DOTALL]. *)
Definition tool_pattern : Re.regex :=
  Re.seq [Re.lit "TOOL:"; Re.Group (Re.plus Re.word); Re.lit "(";
          Re.Group (Re.LazyStar Re.any); Re.lit ")"].

(** The fence pattern: three backquotes, [python\s*\n(.*?)\n] and three
    backquotes, under [re.DOTALL]. *)
Definition code_block_pattern : Re.regex :=
  Re.seq [Re.lit "```python"; Re.Star Re.space; Re.lit Str.nl;
          Re.Group (Re.LazyStar Re.any); Re.lit Str.nl; Re.lit "```"].

(** [key\s*=\s*] before the value of a parameter. *)
Definition key_eq (key : string) : list Re.regex :=
  [Re.lit key; Re.Star Re.space; Re.lit "="; Re.Star Re.space].

(** [key\s*=\s*Q([^Q]+)Q] with [Q] the class of the two quote characters. *)
Definition quoted_pattern (key : string) : Re.regex :=
  Re.seq (List.app (key_eq key)
            [Re.Chr Re.quote; Re.Group (Re.plus Re.not_quote); Re.Chr Re.quote]).

(** [target_file\s*=\s*([^,\s)]+)]. *)
Definition bare_target_pattern : Re.regex :=
  Re.seq (List.app (key_eq "target_file")
            [Re.Group (Re.plus (fun c =>
               negb (Ascii.eqb c ","%char || Str.isspace c || Ascii.eqb c ")"%char)))]).

(** [should_read_entire_file\s*=\s*(true|false)] under [re.IGNORECASE]. *)
Definition entire_file_pattern : Re.regex :=
  Re.seq [Re.lit_nocase "should_read_entire_file"; Re.Star Re.space;
          Re.lit_nocase "="; Re.Star Re.space;
          Re.Group (Re.Alt (Re.lit_nocase "true") (Re.lit_nocase "false"))].

(** [key\s*=\s*(\d+)]. *)
Definition number_pattern (key : string) : Re.regex :=
  Re.seq (List.app (key_eq key) [Re.Group (Re.plus Re.digit)]).

(** As [quoted_pattern] for [relative_workspace_path], the group possibly
    empty. *)
Definition path_pattern : Re.regex :=
  Re.seq (List.app (key_eq "relative_workspace_path")
            [Re.Chr Re.quote; Re.Group (Re.Star Re.not_quote); Re.Chr Re.quote]).

(** [(\w+)\s*=\s*([^,]+)]. *)
Definition pair_pattern : Re.regex :=
  Re.seq [Re.Group (Re.plus Re.word); Re.Star Re.space; Re.lit "=";
          Re.Star Re.space;
          Re.Group (Re.plus (fun c => negb (Ascii.eqb c ","%char)))].

(** The first group of a search, when it matched. *)
Definition search_group (r : Re.regex) (s : string) : option string :=
  match Re.search r s with
  | Some (_, groups, _) => Some (group groups 1)
  | None => None
  end.

(** [params.get(key, default)]. *)
Definition get (params : gmap string value) (key : string) (d : value) : value :=
  default d (params !! key).

(** [repr] of a string. *)
Definition hex_digit (n : nat) : string :=
  String.substring n 1 "0123456789abcdef".

Definition printable (c : ascii) : bool :=
  let n := Str.code c in
  Str.between 32 126 n || (Str.between 161 255 n && negb (n =? 173)%nat).

Fixpoint repr_chars (q : ascii) (s : string) : string :=
  match s with
  | "" => ""
  | String c s' =>
      let n := Str.code c in
      (if Ascii.eqb c q || (n =? 92)%nat then String "\"%char (String c "")
       else if (n =? 9)%nat then "\t"
       else if (n =? 10)%nat then "\n"
       else if (n =? 13)%nat then "\r"
       else if printable c then String c ""
       else "\x" ++ hex_digit (n / 16) ++ hex_digit (n mod 16))
      ++ repr_chars q s'
  end.

Definition repr_str (s : string) : string :=
  let q :=
    if Str.has_char "'"%char s && negb (Str.has_char (ascii_of_nat 34) s)
    then ascii_of_nat 34 else "'"%char in
  String q (repr_chars q s) ++ String q "".

(** [f"{v}"] inside the [try] block of the loop over the matches; [None]
    stands for the exception, which the handler of the loop prints. *)
Definition text_of (v : value) : option string :=
  match format v with
  | inr text => Some text
  | inl _ => None
  end.

Definition repr (v : value) : option string :=
  match v with
  | VStr s => Some (repr_str s)
  | v => text_of v
  end.

(** [sorted(params.items())]: the keys are distinct, so the items are
    ordered by key. *)
Fixpoint insert_item (x : string * value) (l : list (string * value))
    : list (string * value) :=
  match l with
  | [] => [x]
  | y :: l' => if String.leb (fst x) (fst y) then x :: l else y :: insert_item x l'
  end.

Definition sorted_items (params : gmap string value) : list (string * value) :=
  fold_right insert_item [] (map_to_list params).

(** [str] of the list of items. *)
Fixpoint repr_items (items : list (string * value)) : option (list string) :=
  match items with
  | [] => Some []
  | kv :: rest =>
      match repr (snd kv), repr_items rest with
      | Some r, Some rs =>
          Some (("(" ++ repr_str (fst kv) ++ ", " ++ r ++ ")") :: rs)
      | _, _ => None
      end
  end.

Definition str_items (items : list (string * value)) : option string :=
  match repr_items items with
  | Some parts => Some ("[" ++ Str.join ", " parts ++ "]")
  | None => None
  end.

(** The value of one [key=value] pair of a generic call; [None] stands for
    the [ValueError] of [int]. *)
Definition generic_value (raw : string) : option value :=
  let text := Str.strip raw in
  if String.eqb (Str.lower text) "true" then Some (VBool true)
  else if String.eqb (Str.lower text) "false" then Some (VBool false)
  else if Str.startswith Str.dquote text && Str.endswith Str.dquote text
  then Some (VStr (Str.strip_ends text))
  else if Str.startswith Str.squote text && Str.endswith Str.squote text
  then Some (VStr (Str.strip_ends text))
  else if Str.isdigit text then option_map VInt (Str.to_int text)
  else Some (VStr text).

Fixpoint generic_params (param_pairs : list (list string))
    (params : gmap string value) : option (gmap string value) :=
  match param_pairs with
  | [] => Some params
  | kv :: rest =>
      match generic_value (group kv 2) with
      | Some v => generic_params rest (<[group kv 1 := v]> params)
      | None => None
      end
  end.

Definition tool_call : Type := string * gmap string value.

(** What the loop over the matches carries: [tool_calls] and [seen_calls]. *)
Definition loop_state : Type := list tool_call * gset string.

Definition add_call (st : loop_state) (call_id : string) (call : tool_call)
    : loop_state :=
  if decide (call_id ∈ snd st) then st
  else (List.app (fst st) [call], {[call_id]} ∪ snd st).

(** One round of the loop: an exception raised in it is caught by its
    handler, and the round adds nothing; the diagnostics it prints are left
    out. *)
Definition parse_match (st : loop_state) (m : list string) : loop_state :=
  let tool_name := group m 1 in
  let params_str := group m 2 in
  let params : gmap string value := ∅ in
  if String.eqb tool_name "read_file" then
    let target_file_match :=
      match search_group (quoted_pattern "target_file") params_str with
      | Some g => Some g
      | None => search_group bare_target_pattern params_str
      end in
    match target_file_match with
    | None => st
    | Some g =>
        let params := <["target_file" := VStr (Str.strip g)]> params in
        let params :=
          match search_group entire_file_pattern params_str with
          | Some g => <["should_read_entire_file" :=
                          VBool (String.eqb (Str.lower g) "true")]> params
          | None => <["should_read_entire_file" := VBool false]> params
          end in
        let params :=
          match search_group (number_pattern "start_line_one_indexed") params_str with
          | Some g =>
              match Str.to_int g with
              | Some n => Some (<["start_line_one_indexed" := VInt n]> params)
              | None => None
              end
          | None => Some (<["start_line_one_indexed" := VInt 1]> params)
          end in
        match params with
        | None => st
        | Some params =>
        let params :=
          match search_group (number_pattern "end_line_one_indexed_inclusive")
                  params_str with
          | Some g =>
              match Str.to_int g with
              | Some n => Some (<["end_line_one_indexed_inclusive" := VInt n]> params)
              | None => None
              end
          | None => Some (<["end_line_one_indexed_inclusive" := VInt 50]> params)
          end in
        match params with
        | None => st
        | Some params =>
        let params :=
          match search_group (quoted_pattern "explanation") params_str with
          | Some g => Some (<["explanation" := VStr g]> params)
          | None =>
              match text_of (get params "target_file" (VStr "unknown")) with
              | Some name =>
                  Some (<["explanation" := VStr ("Reading file " ++ name)]> params)
              | None => None
              end
          end in
        match params with
        | None => st
        | Some params =>
        match text_of (get params "target_file" (VStr "")),
              text_of (get params "start_line_one_indexed" (VInt 1)),
              text_of (get params "end_line_one_indexed_inclusive" (VInt 50)) with
        | Some target, Some first, Some last =>
            let call_id := tool_name ++ ":" ++ target ++ ":" ++ first ++ ":" ++ last in
            let required_params :=
              ["target_file"; "should_read_entire_file"; "start_line_one_indexed";
               "end_line_one_indexed_inclusive"; "explanation"] in
            if forallb (fun param => bool_decide (is_Some (params !! param)))
                       required_params
            then add_call st call_id (tool_name, params)
            else st
        | _, _, _ => st
        end
        end
        end
        end
    end
  else if String.eqb tool_name "list_dir" then
    let params :=
      match search_group path_pattern params_str with
      | Some g => <["relative_workspace_path" := VStr g]> params
      | None => <["relative_workspace_path" := VStr "."]> params
      end in
    let params :=
      match search_group (quoted_pattern "explanation") params_str with
      | Some g => Some (<["explanation" := VStr g]> params)
      | None =>
          match text_of (get params "relative_workspace_path" (VStr ".")) with
          | Some name =>
              Some (<["explanation" := VStr ("Listing directory " ++ name)]> params)
          | None => None
          end
      end in
    match params with
    | None => st
    | Some params =>
        match text_of (get params "relative_workspace_path" (VStr ".")) with
        | Some name => add_call st (tool_name ++ ":" ++ name) (tool_name, params)
        | None => st
        end
    end
  else
    let param_pairs := Re.findall pair_pattern params_str in
    match generic_params param_pairs params with
    | None => st
    | Some params =>
        match str_items (sorted_items params) with
        | Some items => add_call st (tool_name ++ ":" ++ items) (tool_name, params)
        | None => st
        end
    end.

Definition parse_tool_calls (response : string) : list tool_call :=
  let matches := Re.findall tool_pattern response in
  let code_blocks := Re.findall code_block_pattern response in
  let matches :=
    List.app matches
      (List.flat_map (fun code_block => Re.findall tool_pattern (group code_block 1))
                     code_blocks) in
  fst (fold_left parse_match matches ([], ∅)).

End Chat.

(** ** Notions used by the statements *)

Module Notions.

Import Tools.

(** The required keys [execute_tool] lists for each tool it knows. *)
Definition required (tool_name : string) : option (list string) :=
  if String.eqb tool_name "read_file" then Some read_file_params
  else if String.eqb tool_name "list_dir" then Some list_dir_params
  else None.

(** [needle] occurs in [s]. *)
Fixpoint occurs (needle s : string) : bool :=
  Str.startswith needle s ||
  match s with
  | "" => false
  | String _ s' => occurs needle s'
  end.

(** The non-empty suffixes of a text, longest first. *)
Fixpoint tails (s : string) : list string :=
  match s with
  | "" => []
  | String _ s' => s :: tails s'
  end.

(** The sum of a list of integers. *)
Definition total (l : list Z) : Z := fold_right Z.add 0%Z l.

(** A small POSIX-like system holding the given text files, as lists of
    lines, and the given directories, as lists of entry names. *)
Definition find {A} (table : list (string * A)) (path : string) : option A :=
  option_map snd (List.find (fun entry => String.eqb (fst entry) path) table).

Definition posix (files dirs : list (string * list string)) : world :=
  {| path_isabs := Str.startswith "/";
     path_join := fun a b => a ++ "/" ++ b;
     path_exists := fun p => bool_decide (is_Some (find files p))
                             || bool_decide (is_Some (find dirs p));
     path_isdir := fun p => bool_decide (is_Some (find dirs p));
     open_readlines := fun p =>
       match find files p with
       | Some lines => ret lines
       | None => raise (Exn OtherError "[Errno 21] Is a directory")
       end;
     listdir := fun p =>
       match find dirs p with
       | Some names => ret names
       | None => raise (Exn OtherError "[Errno 20] Not a directory")
       end;
     getsize := fun p =>
       match find files p with
       | Some lines => ret (Str.len (Str.concat lines))
       | None => ret 4096%Z
       end |}.

(** [n] numbered lines. *)
Definition numbered (n : nat) : list string :=
  List.map (fun i => "line " ++ Str.numeral (Z.of_nat i) ++ Str.nl) (List.seq 1 n).

Definition workspace : Tools := create_tools "/ws".

(** The parameters of a complete [read_file] call. *)
Definition read_file_kwargs (target : string) (entire : bool) (first last : Z)
    (why : string) : gmap string value :=
  <["explanation" := VStr why]>
    (<["end_line_one_indexed_inclusive" := VInt last]>
       (<["start_line_one_indexed" := VInt first]>
          (<["should_read_entire_file" := VBool entire]>
             (<["target_file" := VStr target]> ∅)))).

(** *** The text of a [read_file] call

    A call as section 6 of the specification writes it: the marker, the
    name of the tool and, between parentheses, the arguments [key=value]
    separated by commas.  The five keys come in any order; white space may
    stand around an equals sign and around a comma; a string stands between
    two quote characters, the boolean is [true] or [false] in any case, a
    line number is a string of at most 4300 decimals. *)

Definition bool_text (b : bool) : string := if b then "true" else "false".

(** White space only. *)
Definition blank (s : string) : bool := Str.all_chars Str.isspace s.

(** [v] between two quote characters. *)
Definition quoted (v text : string) : Prop :=
  exists q q',
    Re.quote q = true /\ Re.quote q' = true /\
    text = String q (v ++ String q' "").

(** How the pattern of a key compares characters: the boolean is searched
    without regard to case. *)
Definition reading (key : string) : ascii -> ascii -> bool :=
  if String.eqb key "should_read_entire_file" then Re.is_nocase else Re.exactly.

(** The text after [key], where [key] is written at the head of [s]. *)
Fixpoint heads (f : ascii -> ascii -> bool) (key s : string) : option string :=
  match key, s with
  | "", _ => Some s
  | String c key', String x s' => if f c x then heads f key' s' else None
  | String _ _, "" => None
  end.

(** [s] holds the text of an assignment to [key]: the key and an equals
    sign, with nothing but white space between the two. *)
Definition assigned_here (f : ascii -> ascii -> bool) (key s : string) : bool :=
  match heads f key s with
  | Some rest => Str.startswith "=" (Str.lstrip rest)
  | None => false
  end.

Fixpoint assigned (f : ascii -> ascii -> bool) (key s : string) : bool :=
  assigned_here f key s ||
  match s with
  | "" => false
  | String _ s' => assigned f key s'
  end.

(** [text] writes the value that the call gives to the parameter [key]. *)
Inductive written (target : string) (entire : bool) (s e : Z) (why : string)
    : string -> string -> Prop :=
| written_target (text : string) :
    quoted target text ->
    written target entire s e why "target_file" text
| written_entire (text : string) :
    Str.lower text = bool_text entire ->
    written target entire s e why "should_read_entire_file" text
| written_start (text : string) :
    Str.to_int text = Some s ->
    written target entire s e why "start_line_one_indexed" text
| written_end (text : string) :
    Str.to_int text = Some e ->
    written target entire s e why "end_line_one_indexed_inclusive" text
| written_explanation (text : string) :
    quoted why text ->
    written target entire s e why "explanation" text.

(** The arguments [items], each a key and the text of its value, written
    one after the other. *)
Inductive arguments : list (string * string) -> string -> Prop :=
| arguments_last (key text gap1 gap2 : string) :
    blank gap1 = true -> blank gap2 = true ->
    arguments [(key, text)] (key ++ gap1 ++ "=" ++ gap2 ++ text)
| arguments_more (key text gap1 gap2 gap3 gap4 : string)
                 (items : list (string * string)) (rest : string) :
    blank gap1 = true -> blank gap2 = true ->
    blank gap3 = true -> blank gap4 = true ->
    arguments items rest ->
    arguments ((key, text) :: items)
      (key ++ gap1 ++ "=" ++ gap2 ++ text ++ gap3 ++ "," ++ gap4 ++ rest).

(** No value holds the text of an assignment to a key whose argument is
    written after it. *)
Fixpoint unambiguous (items : list (string * string)) : bool :=
  match items with
  | [] => true
  | item :: rest =>
      forallb (fun later =>
                 negb (assigned (reading (fst later)) (fst later) (snd item)))
              rest
      && unambiguous rest
  end.

(** A string value the patterns read back as written: not empty, without
    either quote character, without closing parenthesis and without the
    marker of a call. *)
Definition plain (s : string) : bool :=
  negb (String.eqb s "")
  && negb (Str.has_char (ascii_of_nat 34) s) && negb (Str.has_char "'"%char s)
  && negb (Str.has_char ")"%char s) && negb (occurs "TOOL:" s).

(** A target file is moreover free of white space at its ends. *)
Definition plain_target (s : string) : bool :=
  plain s && String.eqb (Str.strip s) s.

(** [args] is the text, between the parentheses, of a call with the five
    values. *)
Definition read_file_args (target : string) (entire : bool) (s e : Z)
    (why : string) (args : string) : Prop :=
  exists items lead body trail,
    args = lead ++ body ++ trail /\
    blank lead = true /\ blank trail = true /\
    arguments items body /\
    Permutation (List.map fst items) read_file_params /\
    Forall (fun item => written target entire s e why (fst item) (snd item))
           items /\
    unambiguous items = true.

Definition read_file_call (args : string) : string :=
  "TOOL:" ++ "read_file" ++ "(" ++ args ++ ")".

(** [calls_text target s e text calls]: [text] is free text without the
    marker of a call, interleaved with [read_file] calls for the same
    target and the same two line numbers; [calls] lists, in order, the
    boolean and the explanation of each call. *)
Inductive calls_text (target : string) (s e : Z)
    : string -> list (bool * string) -> Prop :=
| calls_none (text : string) :
    occurs "TOOL:" text = false ->
    calls_text target s e text []
| calls_more (text args : string) (entire : bool) (why rest : string)
             (calls : list (bool * string)) :
    occurs "TOOL:" text = false ->
    plain why = true ->
    read_file_args target entire s e why args ->
    calls_text target s e rest calls ->
    calls_text target s e
      (text ++ read_file_call args ++ rest)
      ((entire, why) :: calls).

(** [piece] lies somewhere in [s]. *)
Definition substring (piece s : string) : Prop :=
  exists before after, s = before ++ piece ++ after.

(** The two groups the pattern of a call takes from one of the calls above. *)
Definition call_match (target : string) (s e : Z) (m : list string) : Prop :=
  exists entire why args,
    plain why = true /\
    read_file_args target entire s e why args /\
    m = ["read_file"; args].

(** The arguments as the system prompt writes them: the five keys in the
    order of the signature, strings between double quotes, one space after
    each comma. *)
Definition prompt_args (target : string) (entire : bool) (first last why : string)
    : string :=
  "target_file=" ++ Str.dquote ++ target ++ Str.dquote
  ++ ", should_read_entire_file=" ++ bool_text entire
  ++ ", start_line_one_indexed=" ++ first
  ++ ", end_line_one_indexed_inclusive=" ++ last
  ++ ", explanation=" ++ Str.dquote ++ why ++ Str.dquote.

(** *** Where the pattern of a key cannot match *)

(** [d] is matched by no character of [key]. *)
Definition stop (f : ascii -> ascii -> bool) (key : string) (d : ascii) : bool :=
  Str.all_chars (fun c => negb (f c d)) key.

(** [key] differs from [u] at a place where both have a character. *)
Fixpoint mismatch (f : ascii -> ascii -> bool) (key u : string) : bool :=
  match key, u with
  | String c key', String x u' => negb (f c x) || mismatch f key' u'
  | _, _ => false
  end.

(** [key] is written nowhere in [other], and over no end of it. *)
Definition apart (f : ascii -> ascii -> bool) (key other : string) : bool :=
  forallb (fun u => mismatch f key u
                    || (String.length u <? String.length key)%nat)
          (tails other).

(** What follows a value: the end of the arguments, or a character that
    no character of [key] matches; and no equals sign comes first. *)
Definition follows (f : ascii -> ascii -> bool) (key r : string) : Prop :=
  (r = "" \/ exists d r', r = String d r' /\ stop f key d = true) /\
  Str.startswith "=" (Str.lstrip r) = false.

(** The characters that stand between keys and values. *)
Definition between_char (d : ascii) : bool :=
  Str.isspace d || Ascii.eqb d "="%char || Ascii.eqb d ","%char || Re.quote d.

(** What is left after the value of an argument: white space to the end,
    or white space and the comma before the next argument. *)
Definition after_value (r : string) : Prop :=
  blank r = true \/
  exists gap r', blank gap = true /\ r = gap ++ String "," r'.

(** A result as the data model wants it: content and no error on success,
    no content and a non-empty error on failure. *)
Definition well_formed (r : ToolResult) : Prop :=
  (success r = true /\ error r = None) \/
  (success r = false /\ content r = "" /\
   exists e, error r = Some e /\ e <> "").

(** The failures of a call through the dispatcher, as the arguments and the
    file system show them: a tool that is not registered, a required
    parameter left out, a file that is not there or cannot be opened or
    decoded, a range that is not valid or too large, a directory that is not
    there, is no directory or cannot be listed, an entry whose size cannot
    be read. *)
Inductive failure (w : world) (self : Tools) (tool_name : string)
    (kwargs : gmap string value) : Prop :=
| unknown_tool :
    required tool_name = None ->
    failure w self tool_name kwargs
| missing_parameter (params : list string) (k : string) :
    required tool_name = Some params -> k ∈ params -> kwargs !! k = None ->
    failure w self tool_name kwargs
| file_not_found (target : string) :
    tool_name = "read_file" ->
    kwargs !! "target_file" = Some (VStr target) ->
    path_exists w (resolve w self target) = false ->
    failure w self tool_name kwargs
| file_unreadable (target : string) (e : exn) :
    tool_name = "read_file" ->
    kwargs !! "target_file" = Some (VStr target) ->
    open_readlines w (resolve w self target) = inl e ->
    failure w self tool_name kwargs
| range_refused (target : string) (lines : list string) (entire : value)
                (s e : Z) :
    tool_name = "read_file" ->
    kwargs !! "target_file" = Some (VStr target) ->
    path_exists w (resolve w self target) = true ->
    open_readlines w (resolve w self target) = inr lines ->
    kwargs !! "should_read_entire_file" = Some entire ->
    truthy entire = false ->
    kwargs !! "start_line_one_indexed" = Some (VInt s) ->
    kwargs !! "end_line_one_indexed_inclusive" = Some (VInt e) ->
    (s < 1 \/ e < s
     \/ 250 < Z.min e (Z.of_nat (List.length lines)) - (s - 1))%Z ->
    failure w self tool_name kwargs
| directory_not_found (path : value) (dir_path : string) :
    tool_name = "list_dir" ->
    kwargs !! "relative_workspace_path" = Some path ->
    resolve_dir w self path = inr dir_path ->
    path_exists w dir_path = false ->
    failure w self tool_name kwargs
| not_a_directory (path : value) (dir_path : string) :
    tool_name = "list_dir" ->
    kwargs !! "relative_workspace_path" = Some path ->
    resolve_dir w self path = inr dir_path ->
    path_isdir w dir_path = false ->
    failure w self tool_name kwargs
| directory_unreadable (path : value) (dir_path : string) (e : exn) :
    tool_name = "list_dir" ->
    kwargs !! "relative_workspace_path" = Some path ->
    resolve_dir w self path = inr dir_path ->
    listdir w dir_path = inl e ->
    failure w self tool_name kwargs
| entry_unreadable (path : value) (dir_path : string) (names : list string)
                   (item : string) (e : exn) :
    tool_name = "list_dir" ->
    kwargs !! "relative_workspace_path" = Some path ->
    resolve_dir w self path = inr dir_path ->
    listdir w dir_path = inr names ->
    item ∈ names ->
    path_isdir w (path_join w dir_path item) = false ->
    getsize w (path_join w dir_path item) = inl e ->
    failure w self tool_name kwargs.

End Notions.

(** * Statements *)

Import Tools Chat Notions.
(** ** Strings *)

Lemma sapp_cons (x : ascii) (a b : string) : String x a ++ b = String x (a ++ b).
Proof. reflexivity. Qed.

Lemma sapp_nil_l (a : string) : "" ++ a = a.
Proof. reflexivity. Qed.

Lemma sapp_assoc (a b c : string) : (a ++ b) ++ c = a ++ (b ++ c).
Proof.
  induction a as [|x a IH]; [reflexivity|].
  rewrite !sapp_cons. f_equal. exact IH.
Qed.

Lemma sapp_nil_r (a : string) : a ++ "" = a.
Proof.
  induction a as [|x a IH]; [reflexivity|].
  rewrite sapp_cons. f_equal. exact IH.
Qed.

Lemma slength_app (a b : string) :
  String.length (a ++ b) = (String.length a + String.length b)%nat.
Proof.
  induction a as [|x a IH]; [reflexivity|].
  rewrite sapp_cons. simpl. f_equal. exact IH.
Qed.

(** Brings both sides of an equation between texts to one shape. *)
Ltac text_eq :=
  unfold Str.nl, Str.dquote, Str.squote, Str.chr;
  rewrite ?sapp_assoc; rewrite ?sapp_cons, ?sapp_nil_l; reflexivity.


(** ** Conversions between integers and text *)

Lemma int_limit_pow : Str.int_limit = (10 ^ 4300)%Z.
Proof. vm_compute. reflexivity. Qed.

Lemma str_int_small (n : Z) :
  (Z.abs n < Str.int_limit)%Z -> str_int n = inr (Str.numeral n).
Proof.
  intros H. unfold str_int, Str.of_Z.
  destruct (Z.ltb_spec (Z.abs n) Str.int_limit); [reflexivity | lia].
Qed.

Lemma str_int_nat (n : Z) :
  (0 <= n < Str.int_limit)%Z -> str_int n = inr (Str.numeral n).
Proof. intros H. apply str_int_small. lia. Qed.

(** ** Reading a file *)

Section ReadFile.

Variables (w : world) (self : Tools) (target : string) (lines : list string).
Variable why : value.

Hypothesis file_exists : path_exists w (resolve w self target) = true.
Hypothesis file_text : open_readlines w (resolve w self target) = inr lines.

Let total_lines : Z := Z.of_nat (List.length lines).

(** Range mode on a readable file, with a valid range of more than 250
    lines after clamping: the call is refused before any text is made. *)
Lemma read_file_range_refused (s e : Z) :
  (1 <= s)%Z -> (s <= e)%Z -> (250 < Z.min e total_lines - (s - 1))%Z ->
  read_file w self (VStr target) (VBool false) (VInt s) (VInt e) why =
  Returned (failed "Cannot read more than 250 lines at once").
Proof.
  intros Hs He Hcap.
  unfold read_file, read_file_try. cbn [as_path bind ret].
  rewrite file_exists. cbn [negb]. rewrite file_text. cbn [bind truthy as_int ret].
  destruct (Z.ltb_spec s 1) as [?|_]; [lia|].
  destruct (Z.ltb_spec e s) as [?|_]; [lia|].
  fold total_lines.
  destruct (Z.ltb_spec 250 (Z.min e total_lines - (s - 1))); [reflexivity | lia].
Qed.

(** Range mode on a readable file, with a valid range of at most 250 lines
    after clamping and numbers of at most 4300 digits: the text returned. *)
Lemma read_file_range (s e : Z) :
  (1 <= s)%Z -> (s <= e)%Z -> (Z.min e total_lines - (s - 1) <= 250)%Z ->
  (e < Str.int_limit)%Z -> (total_lines < Str.int_limit)%Z ->
  read_file w self (VStr target) (VBool false) (VInt s) (VInt e) why =
  Returned
    (ok ((if (total_lines <? e)%Z
          then "Requested to read lines " ++ Str.numeral s ++ "-" ++ Str.numeral e
               ++ ", but returning lines " ++ Str.numeral s ++ "-"
               ++ Str.numeral total_lines ++ " (end of file)." ++ Str.nl
          else "Contents of " ++ target ++ ", lines " ++ Str.numeral s ++ "-"
               ++ Str.numeral e ++ ":" ++ Str.nl)
         ++ "```" ++ Str.nl
         ++ Str.rstrip (Str.concat (Str.slice lines (s - 1) (Z.min e total_lines)))
         ++ Str.nl ++ "```"
         ++ match (0 <? s - 1)%Z, (0 <? total_lines - e)%Z with
            | false, false => ""
            | true, false =>
                Str.nl ++ Str.nl ++ "Summary: Lines 1-" ++ Str.numeral (s - 1)
                ++ " not shown"
            | false, true =>
                Str.nl ++ Str.nl ++ "Summary: Lines " ++ Str.numeral (e + 1) ++ "-"
                ++ Str.numeral total_lines ++ " not shown"
            | true, true =>
                Str.nl ++ Str.nl ++ "Summary: Lines 1-" ++ Str.numeral (s - 1)
                ++ " not shown | Lines " ++ Str.numeral (e + 1) ++ "-"
                ++ Str.numeral total_lines ++ " not shown"
            end)).
Proof.
  intros Hs He Hcap Hlim Htot.
  unfold read_file, read_file_try. cbn [as_path bind ret].
  rewrite file_exists. cbn [negb]. rewrite file_text. cbn [bind truthy as_int ret].
  destruct (Z.ltb_spec s 1) as [?|_]; [lia|].
  destruct (Z.ltb_spec e s) as [?|_]; [lia|].
  fold total_lines.
  destruct (Z.ltb_spec 250 (Z.min e total_lines - (s - 1))) as [?|_]; [lia|].
  cbn [format].
  rewrite (str_int_nat s), (str_int_nat e), (str_int_nat total_lines)
    by (subst total_lines; lia).
  destruct (Z.ltb_spec 0 (s - 1)) as [Hb|Hb];
    [rewrite (str_int_nat (s - 1)) by lia|];
    (destruct (Z.ltb_spec 0 (total_lines - e)) as [Ha|Ha];
     [rewrite (str_int_nat (e + 1)) by lia|]);
    destruct (total_lines <? e)%Z;
    cbn [bind ret List.app Str.join]; unfold ok; do 2 f_equal; text_eq.
Qed.

End ReadFile.

Lemma slice_to_end {A} (l : list A) (a : Z) :
  (0 <= a)%Z ->
  Str.slice l a (Z.of_nat (List.length l)) = skipn (Z.to_nat a) l.
Proof.
  intros Ha. unfold Str.slice, Str.slice_index.
  destruct (Z.ltb_spec a 0) as [?|_]; [lia|].
  destruct (Z.ltb_spec (Z.of_nat (List.length l)) 0) as [?|_]; [lia|].
  rewrite Z.min_id.
  destruct (Z.le_ge_cases a (Z.of_nat (List.length l))) as [Hle|Hge].
  - rewrite Z.min_l by lia. apply firstn_all2. rewrite length_skipn. lia.
  - rewrite Z.min_r by lia. rewrite Nat2Z.id.
    rewrite !skipn_all2 by lia. apply firstn_nil.
Qed.

(** C1, as stated, fails: a span of 299 on a ten-line file is read. *)
Lemma read_file_long_span_short_file :
  let w := posix [("/ws/notes.txt", numbered 10)] [] in
  (1 <= 1)%Z /\ (1 <= 300)%Z /\ (300 - 1 > 250)%Z /\
  exists r,
    read_file w workspace (VStr "notes.txt") (VBool false)
      (VInt 1) (VInt 300) (VStr "why") = Returned r /\
    success r = true.
Proof.
  cbv zeta. split; [lia|]. split; [lia|]. split; [lia|].
  eexists. split; [vm_compute; reflexivity | reflexivity].
Qed.

(** C1, amended: in range mode on a readable file, with [1 <= start <= end]
    and a requested span [end - start] above 250, the call fails with the
    error of a range too large, and with empty content, when the file has at
    least [start + 250] lines; on a shorter file, of fewer than 10 ^ 4300
    lines, and with an end of at most 4300 digits, it succeeds. *)
Theorem read_file_range_too_large
    (w : world) (self : Tools) (target : string) (lines : list string)
    (why : value) (s e : Z) :
  path_exists w (resolve w self target) = true ->
  open_readlines w (resolve w self target) = inr lines ->
  (1 <= s)%Z -> (s <= e)%Z -> (e - s > 250)%Z ->
  let r := read_file w self (VStr target) (VBool false) (VInt s) (VInt e) why in
  ((s + 250 <= Z.of_nat (List.length lines))%Z ->
   r = Returned (failed "Cannot read more than 250 lines at once")) /\
  ((Z.of_nat (List.length lines) < s + 250)%Z ->
   (e < Str.int_limit)%Z -> (Z.of_nat (List.length lines) < Str.int_limit)%Z ->
   exists text, r = Returned (ok text)).
Proof.
  intros Hex Htxt Hs He Hspan r. subst r. split.
  - intros Hlen.
    apply (read_file_range_refused w self target lines why Hex Htxt); lia.
  - intros Hlen Hlim Htot.
    rewrite (read_file_range w self target lines why Hex Htxt s e) by lia.
    eexists. reflexivity.
Qed.

Lemma read_file_range_too_large_witness :
  read_file (posix [("/ws/notes.txt", numbered 300)] []) workspace
    (VStr "notes.txt") (VBool false) (VInt 1) (VInt 300) (VStr "why")
  = Returned (failed "Cannot read more than 250 lines at once") /\
  exists text,
    read_file (posix [("/ws/notes.txt", numbered 10)] []) workspace
      (VStr "notes.txt") (VBool false) (VInt 1) (VInt 300) (VStr "why")
    = Returned (ok text).
Proof.
  split.
  - refine (proj1 (read_file_range_too_large
                     (posix [("/ws/notes.txt", numbered 300)] []) workspace
                     "notes.txt" (numbered 300) (VStr "why") 1 300 _ _ _ _ _) _);
      vm_compute; congruence.
  - refine (proj2 (read_file_range_too_large
                     (posix [("/ws/notes.txt", numbered 10)] []) workspace
                     "notes.txt" (numbered 10) (VStr "why") 1 300 _ _ _ _ _) _ _ _);
      vm_compute; congruence.
Defined.

(** C2, as stated, fails: the end lies past the last line of a 300-line
    file, and the call is refused. *)
Lemma read_file_past_end_refused :
  let w := posix [("/ws/notes.txt", numbered 300)] [] in
  (1 <= 1)%Z /\ (1 <= 2000)%Z /\ (Z.of_nat (List.length (numbered 300)) < 2000)%Z /\
  exists r,
    read_file w workspace (VStr "notes.txt") (VBool false)
      (VInt 1) (VInt 2000) (VStr "why") = Returned r /\
    success r = false.
Proof.
  cbv zeta. split; [lia|]. split; [lia|].
  split; [vm_compute; reflexivity|].
  eexists. split; [vm_compute; reflexivity | reflexivity].
Qed.

(** C2, amended: in range mode on a readable file, with [1 <= start <= end],
    an end past the last line and of at most 4300 digits, and at most 250
    lines from [start] to the end of the file, the call succeeds; the content
    says that lines [start]-[total] are returned in place of the requested
    range, down to the end of the file, and holds the lines from [start] to
    the last one. *)
Theorem read_file_truncated_to_eof
    (w : world) (self : Tools) (target : string) (lines : list string)
    (why : value) (s e : Z) :
  path_exists w (resolve w self target) = true ->
  open_readlines w (resolve w self target) = inr lines ->
  (1 <= s)%Z -> (s <= e)%Z ->
  (Z.of_nat (List.length lines) < e)%Z ->
  (Z.of_nat (List.length lines) - (s - 1) <= 250)%Z ->
  (e < Str.int_limit)%Z ->
  read_file w self (VStr target) (VBool false) (VInt s) (VInt e) why =
  Returned
    (ok ("Requested to read lines " ++ Str.numeral s ++ "-" ++ Str.numeral e
         ++ ", but returning lines " ++ Str.numeral s ++ "-"
         ++ Str.numeral (Z.of_nat (List.length lines)) ++ " (end of file)."
         ++ Str.nl ++ "```" ++ Str.nl
         ++ Str.rstrip (Str.concat (skipn (Z.to_nat (s - 1)) lines))
         ++ Str.nl ++ "```"
         ++ (if (1 <? s)%Z
             then Str.nl ++ Str.nl ++ "Summary: Lines 1-" ++ Str.numeral (s - 1)
                  ++ " not shown"
             else ""))).
Proof.
  intros Hex Htxt Hs He Hpast Hfew Hlim.
  rewrite (read_file_range w self target lines why Hex Htxt s e) by lia.
  rewrite Z.min_r by lia.
  destruct (Z.ltb_spec (Z.of_nat (List.length lines)) e); [|lia].
  destruct (Z.ltb_spec 0 (Z.of_nat (List.length lines) - e)); [lia|].
  rewrite slice_to_end by lia.
  unfold ok. do 2 f_equal.
  destruct (Z.ltb_spec 0 (s - 1)), (Z.ltb_spec 1 s); try lia; text_eq.
Qed.

Lemma read_file_truncated_to_eof_witness :
  let w := posix [("/ws/notes.txt", numbered 50)] [] in
  exists r,
    read_file w workspace (VStr "notes.txt") (VBool false)
      (VInt 5) (VInt 2000) (VStr "why") = Returned r /\
    success r = true /\
    Tools.content r =
      "Requested to read lines 5-2000, but returning lines 5-50 (end of file)."
      ++ Str.nl ++ "```" ++ Str.nl
      ++ Str.rstrip (Str.concat (skipn 4 (numbered 50)))
      ++ Str.nl ++ "```" ++ Str.nl ++ Str.nl ++ "Summary: Lines 1-4 not shown".
Proof.
  intros w. eexists. split.
  - refine (read_file_truncated_to_eof w workspace "notes.txt" (numbered 50)
              (VStr "why") 5 2000 _ _ _ _ _ _ _); vm_compute; congruence.
  - split; reflexivity.
Defined.

(** C8 at a range that leaves no line out: lines 1-3 of a three-line file
    come back with nothing appended after the closing fence. *)
Theorem read_file_whole_section_no_summary :
  read_file (posix [("/ws/notes.txt", numbered 3)] []) workspace
    (VStr "notes.txt") (VBool false) (VInt 1) (VInt 3) (VStr "why") =
  Returned
    (ok ("Contents of notes.txt, lines 1-3:" ++ Str.nl ++ "```" ++ Str.nl
         ++ "line 1" ++ Str.nl ++ "line 2" ++ Str.nl ++ "line 3"
         ++ Str.nl ++ "```")).
Proof. vm_compute. reflexivity. Qed.

(** ** The dispatcher *)

Lemma text_nonempty (c : ascii) (a b : string) : String c a ++ b <> "".
Proof. rewrite sapp_cons. discriminate. Qed.

Lemma well_formed_ok (c : string) : well_formed (ok c).
Proof. left. split; reflexivity. Qed.

Lemma well_formed_failed (c : ascii) (a b : string) :
  well_formed (failed (String c a ++ b)).
Proof.
  right. repeat split. eexists. split; [reflexivity | apply text_nonempty].
Qed.

Lemma well_formed_failed_lit (c : ascii) (a : string) :
  well_formed (failed (String c a)).
Proof. right. repeat split. eexists. split; [reflexivity | discriminate]. Qed.

Create HintDb tool.

#[local] Hint Resolve well_formed_ok well_formed_failed well_formed_failed_lit : tool.

(** Goes through a [try] block along every path, and closes the paths that
    return a result. *)
Ltac try_paths :=
  unfold bind, ret, raise in *;
  repeat (case_match; simplify_eq; auto with tool);
  simplify_eq; auto with tool.

(** What the [try] block of [read_file] returns is well formed. *)
Lemma read_file_try_well_formed
    (w : world) (self : Tools) (t b s e x : value) (r : ToolResult) :
  read_file_try w self t b s e x = inr r -> well_formed r.
Proof.
  unfold read_file_try, as_path, as_int, format, str_int. intros H. try_paths.
Qed.

(** An argument that [f"{v}"] can format: no integer above the limit. *)
Lemma format_returns (v : value) :
  (forall n, v = VInt n -> (Z.abs n < Str.int_limit)%Z) ->
  exists name, format v = inr name.
Proof.
  intros H. destruct v as [s|[]|n]; cbn [format]; eauto.
  rewrite str_int_small by (now apply H). eauto.
Qed.

Lemma read_file_returns
    (w : world) (self : Tools) (t b s e x : value) :
  (forall n, t = VInt n -> (Z.abs n < Str.int_limit)%Z) ->
  exists r, read_file w self t b s e x = Returned r /\ well_formed r.
Proof.
  intros Ht. destruct (format_returns t Ht) as [name Hname].
  unfold read_file, handler. rewrite Hname.
  destruct (read_file_try w self t b s e x) as [[[] text]|r] eqn:Htry;
    eauto using read_file_try_well_formed with tool.
Qed.

Lemma list_dir_try_well_formed
    (w : world) (self : Tools) (p x : value) (r : ToolResult) :
  list_dir_try w self p x = inr r -> well_formed r.
Proof.
  unfold list_dir_try, format, str_int. intros H. try_paths.
Qed.

Lemma list_dir_returns (w : world) (self : Tools) (p x : value) :
  (forall n, p = VInt n -> (Z.abs n < Str.int_limit)%Z) ->
  exists r, list_dir w self p x = Returned r /\ well_formed r.
Proof.
  intros Hp. destruct (format_returns p Hp) as [name Hname].
  unfold list_dir, handler. rewrite Hname.
  destruct (list_dir_try w self p x) as [[k text]|r] eqn:Htry;
    eauto using list_dir_try_well_formed with tool.
Qed.

Lemma missing_params_spec (required : list string) (kwargs : gmap string value)
    (k : string) :
  k  ∈ missing_params required kwargs <-> k ∈ required /\ kwargs !! k = None.
Proof. unfold missing_params. rewrite list_elem_of_filter. tauto. Qed.

Lemma missing_params_nil (required : list string) (kwargs : gmap string value) :
  missing_params required kwargs = [] ->
  forall k, k ∈ required -> is_Some (kwargs !! k).
Proof.
  intros Hnil k Hk.
  destruct (kwargs !! k) eqn:Hlook; [eauto|].
  assert (k ∈ missing_params required kwargs) as Hin
    by (apply missing_params_spec; auto).
  rewrite Hnil in Hin. inversion Hin.
Qed.

Lemma unexpected_nil (params : list string) (kwargs : gmap string value) :
  (forall k, is_Some (kwargs !! k) -> k ∈ params) ->
  unexpected params kwargs = [].
Proof.
  intros Hkeys. unfold unexpected.
  destruct (filter _ _) as [|k rest] eqn:Hf; [reflexivity|].
  assert (k ∈ filter (fun k => k ∉ params) (map fst (map_to_list kwargs))) as Hin
    by (rewrite Hf; left).
  apply list_elem_of_filter in Hin as [Hout Hin].
  apply list_elem_of_In, in_map_iff in Hin as [[k' v] [<- Hin]].
  apply list_elem_of_In, elem_of_map_to_list in Hin.
  exfalso. apply Hout, Hkeys. simpl. eauto.
Qed.

Lemma bound_twice_false (kwargs : gmap string value) :
  kwargs !! "self" = None -> kwargs !! "tool_name" = None ->
  bound_twice kwargs = false.
Proof. intros Hs Ht. unfold bound_twice. now rewrite Hs, Ht. Qed.




(** *** The failures of the two tools *)

Lemma handler_str (target : string) (message : string -> string) :
  handler (VStr target) message = Returned (failed (message target)).
Proof. reflexivity. Qed.

Lemma read_file_fails_not_found
    (w : world) (self : Tools) (target : string) (b s e x : value) :
  path_exists w (resolve w self target) = false ->
  read_file w self (VStr target) b s e x =
  Returned (failed ("File not found: " ++ target)).
Proof.
  intros Hex. unfold read_file, read_file_try. cbn [as_path bind ret].
  now rewrite Hex.
Qed.

Lemma read_file_fails_unreadable
    (w : world) (self : Tools) (target : string) (b s e x : value) (err : exn) :
  open_readlines w (resolve w self target) = inl err ->
  exists message,
    read_file w self (VStr target) b s e x = Returned (failed message).
Proof.
  intros Hopen.
  destruct (path_exists w (resolve w self target)) eqn:Hex;
    [|rewrite read_file_fails_not_found by assumption; eauto].
  unfold read_file, read_file_try. cbn [as_path bind ret].
  rewrite Hex. cbn [negb]. rewrite Hopen. cbn [bind].
  destruct err as [[] text]; rewrite handler_str; eauto.
Qed.

Lemma read_file_fails_range
    (w : world) (self : Tools) (target : string) (lines : list string)
    (b x : value) (s e : Z) :
  path_exists w (resolve w self target) = true ->
  open_readlines w (resolve w self target) = inr lines ->
  truthy b = false ->
  (s < 1 \/ e < s \/ 250 < Z.min e (Z.of_nat (List.length lines)) - (s - 1))%Z ->
  exists message,
    read_file w self (VStr target) b (VInt s) (VInt e) x =
    Returned (failed message).
Proof.
  intros Hex Hopen Hb Hrange.
  unfold read_file, read_file_try. cbn [as_path bind ret].
  rewrite Hex. cbn [negb]. rewrite Hopen. cbn [bind]. rewrite Hb.
  cbn [as_int bind ret].
  destruct (Z.ltb_spec s 1); [eauto|].
  destruct (Z.ltb_spec e s); [eauto|].
  destruct (Z.ltb_spec 250 (Z.min e (Z.of_nat (List.length lines)) - (s - 1)));
    [eauto | lia].
Qed.

Lemma elem_of_insert_sorted (x y : string) (l : list string) :
  y ∈ Str.insert_sorted x l <-> y = x \/ y ∈ l.
Proof.
  induction l as [|z l IH]; simpl.
  - rewrite list_elem_of_singleton, elem_of_nil. tauto.
  - destruct (String.leb x z); [apply elem_of_cons|].
    rewrite !elem_of_cons, IH. tauto.
Qed.

Lemma elem_of_sorted (y : string) (l : list string) : y ∈ Str.sorted l <-> y ∈ l.
Proof.
  unfold Str.sorted. induction l as [|x l IH]; simpl; [reflexivity|].
  rewrite elem_of_insert_sorted, elem_of_cons, IH. reflexivity.
Qed.

Lemma list_dir_items_fail (w : world) (dir_path item : string) (err : exn)
    (names : list string) :
  item ∈ names -> list_dir_item w dir_path item = inl err ->
  exists err', list_dir_items w dir_path names = inl err'.
Proof.
  intros Hin Hitem. induction names as [|name names IH]; [inversion Hin|].
  cbn [list_dir_items].
  destruct (list_dir_item w dir_path name) as [e1|entry] eqn:Hname;
    cbn [bind]; [eauto|].
  apply elem_of_cons in Hin as [->|Hin]; [congruence|].
  destruct (IH Hin) as [err' ->]. cbn [bind]. eauto.
Qed.

Lemma list_dir_fails
    (w : world) (self : Tools) (p x : value) (dir_path : string) :
  resolve_dir w self p = inr dir_path ->
  path_exists w dir_path = false \/ path_isdir w dir_path = false
  \/ (exists err, listdir w dir_path = inl err)
  \/ (exists names item err,
        listdir w dir_path = inr names /\ item ∈ names /\
        path_isdir w (path_join w dir_path item) = false /\
        getsize w (path_join w dir_path item) = inl err) ->
  exists message, list_dir w self p x = Returned (failed message).
Proof.
  intros Hdir Hcase.
  assert (exists path, p = VStr path) as [path ->]
    by (destruct p; try discriminate; eauto).
  unfold list_dir, list_dir_try. rewrite Hdir. cbn [bind format ret].
  destruct (path_exists w dir_path) eqn:Hex; cbn [negb]; [|eauto].
  destruct (path_isdir w dir_path) eqn:Hisdir; cbn [negb]; [|eauto].
  assert (exists err, (let* names := listdir w dir_path in
                       list_dir_items w dir_path (Str.sorted names)) = inl err)
    as [[kind text] ->].
  { destruct Hcase as [?|[?|[[err Hls]|(names & item & err & Hls & Hin & Hd & Hsz)]]];
      try congruence.
    - rewrite Hls. cbn [bind]. eauto.
    - rewrite Hls. cbn [bind].
      apply (list_dir_items_fail w dir_path item err).
      + now apply elem_of_sorted.
      + unfold list_dir_item. rewrite Hd, Hsz. reflexivity. }
  destruct kind; cbn [ret raise]; rewrite ?handler_str; eauto.
Qed.

(** Membership in a list of keys written out. *)
Ltac key_in := apply list_elem_of_In; simpl; tauto.




(** ** Listing a directory *)



(** ** The context budget *)

Lemma count_message_tokens_from (messages : list message) (start : Z) :
  fold_left
    (fun total_tokens message =>
       (total_tokens + (estimate_tokens (Chat.content message) + 10))%Z)
    messages start =
  (start + total (List.map (fun m => (Str.len (Chat.content m) / 4 + 10)%Z)
                    messages))%Z.
Proof.
  revert start. induction messages as [|m messages IH]; intros start; simpl.
  - unfold total. simpl. lia.
  - rewrite IH. unfold total, estimate_tokens. simpl. lia.
Qed.

Lemma count_message_tokens_sum (messages : list message) :
  count_message_tokens messages =
  total (List.map (fun m => (Str.len (Chat.content m) / 4 + 10)%Z) messages).
Proof. unfold count_message_tokens. now rewrite count_message_tokens_from. Qed.

Lemma MAX_CONTEXT_TOKENS_pos (model_name : string) :
  (0 < MAX_CONTEXT_TOKENS model_name)%Z.
Proof.
  unfold MAX_CONTEXT_TOKENS, CONTEXT_LIMITS.
  cbn [list_to_map foldr uncurry fst snd].
  rewrite !lookup_insert, lookup_empty.
  repeat case_decide; cbn; lia.
Qed.

(** The percentage against a threshold, in integers. *)
Lemma percentage_threshold (current max_tokens : Z) (num : positive) :
  (0 < max_tokens)%Z ->
  Qle_bool ((Z.pos num # 10) * 100)
           (inject_Z current / inject_Z max_tokens * 100) = true <->
  (Z.pos num * 10 * max_tokens <= 100 * current)%Z.
Proof.
  intros Hmax. rewrite Qle_bool_iff.
  destruct max_tokens as [|m|m]; try lia.
  unfold Qle, Qmult, Qdiv, Qinv, inject_Z. cbn. lia.
Qed.

(** C5: the estimated usage is the sum, over the messages, of the character
    count of the content integer-divided by 4 plus 10; the percentage is that
    count over the window of the model, times 100; and the status is OK
    below 80 percent, WARNING from 80 up to but not including 90 percent, and
    CRITICAL from 90 percent on. *)
Theorem get_context_usage_spec (model_name : string) (messages : list message) :
  let '(current_tokens, max_tokens, usage_percentage, status) :=
    get_context_usage model_name messages in
  current_tokens =
    total (List.map (fun m => (Str.len (Chat.content m) / 4 + 10)%Z) messages) /\
  max_tokens = MAX_CONTEXT_TOKENS model_name /\
  (usage_percentage == inject_Z current_tokens / inject_Z max_tokens * 100)%Q /\
  (status = OK <-> (usage_percentage < 80)%Q) /\
  (status = WARNING <-> (80 <= usage_percentage)%Q /\ (usage_percentage < 90)%Q) /\
  (status = CRITICAL <-> (90 <= usage_percentage)%Q).
Proof.
  unfold get_context_usage.
  set (current := count_message_tokens messages).
  set (pct := (inject_Z current / inject_Z (MAX_CONTEXT_TOKENS model_name) * 100)%Q).
  split; [apply count_message_tokens_sum|].
  split; [reflexivity|]. split; [reflexivity|].
  assert (H90 : (CRITICAL_THRESHOLD * 100 == 90)%Q) by reflexivity.
  assert (H80 : (WARNING_THRESHOLD * 100 == 80)%Q) by reflexivity.
  destruct (Qle_bool (CRITICAL_THRESHOLD * 100) pct) eqn:Hc.
  - apply Qle_bool_iff in Hc. rewrite H90 in Hc.
    repeat split; try discriminate; try tauto; intros H.
    + exfalso. apply (Qlt_not_le _ _ H). eapply Qle_trans; [|exact Hc]. discriminate.
    + exfalso. destruct H as [_ H]. apply (Qlt_not_le _ _ H Hc).
  - assert (Hlt90 : (pct < 90)%Q).
    { apply Qnot_le_lt. intros H. rewrite <- H90 in H.
      apply Qle_bool_iff in H. congruence. }
    destruct (Qle_bool (WARNING_THRESHOLD * 100) pct) eqn:Hw.
    + apply Qle_bool_iff in Hw. rewrite H80 in Hw.
      repeat split; try discriminate; try tauto; intros H.
      * exfalso. apply (Qlt_not_le _ _ H Hw).
      * exfalso. apply (Qlt_not_le _ _ Hlt90 H).
    + assert (Hlt80 : (pct < 80)%Q).
      { apply Qnot_le_lt. intros H. rewrite <- H80 in H.
        apply Qle_bool_iff in H. congruence. }
      repeat split; try discriminate; try tauto; intros H.
      * exfalso. destruct H as [H _]. apply (Qlt_not_le _ _ Hlt80 H).
      * exfalso. apply (Qlt_not_le _ _ Hlt90 H).
Qed.

(** The status in integers: the thresholds are 80 and 90 hundredths of the
    window. *)
Lemma get_context_usage_status (model_name : string) (messages : list message) :
  let current := count_message_tokens messages in
  let window := MAX_CONTEXT_TOKENS model_name in
  snd (get_context_usage model_name messages) =
  if (90 * window <=? 100 * current)%Z then CRITICAL
  else if (80 * window <=? 100 * current)%Z then WARNING
  else OK.
Proof.
  intros current window. unfold get_context_usage. cbn [snd].
  fold current. fold window.
  pose proof (MAX_CONTEXT_TOKENS_pos model_name) as Hpos. fold window in Hpos.
  unfold CRITICAL_THRESHOLD, WARNING_THRESHOLD.
  destruct (Qle_bool ((9 # 10) * 100) _) eqn:Hc;
    pose proof (percentage_threshold current window 9 Hpos) as H9.
  - apply H9 in Hc. destruct (Z.leb_spec (90 * window) (100 * current));
      [reflexivity | lia].
  - destruct (Z.leb_spec (90 * window) (100 * current)) as [Hle|Hlt].
    + assert (Hc' : (9 * 10 * window <= 100 * current)%Z) by lia.
      apply H9 in Hc'. congruence.
    + destruct (Qle_bool ((8 # 10) * 100) _) eqn:Hw;
        pose proof (percentage_threshold current window 8 Hpos) as H8.
      * apply H8 in Hw. destruct (Z.leb_spec (80 * window) (100 * current));
          [reflexivity | lia].
      * destruct (Z.leb_spec (80 * window) (100 * current)) as [Hle'|Hlt'];
          [|reflexivity].
        assert (Hw' : (8 * 10 * window <= 100 * current)%Z) by lia.
        apply H8 in Hw'. congruence.
Qed.

(** The binary64 status and the exact one agree on every history the
    windows can meet: checked for each window of [CONTEXT_LIMITS] and every
    token count below 2^18, twice the largest window. *)
Lemma status_eqb_eq (a b : status) : status_eqb a b = true -> a = b.
Proof. destruct a, b; simpl; congruence. Qed.

Lemma binary64_agrees_sound (k : nat) : forall current window d,
  binary64_agrees k current window = true ->
  (0 <= d < 2 ^ Z.of_nat k)%Z ->
  status_binary64 (current + d) window = status_of_ratio (current + d) window.
Proof.
  induction k as [|k IH]; intros c m d H Hd.
  - assert (d = 0%Z) by (simpl in Hd; lia). subst d. rewrite Z.add_0_r.
    now apply status_eqb_eq.
  - cbn [binary64_agrees] in H. apply andb_prop in H as [H1 H2].
    rewrite Nat2Z.inj_succ, Z.pow_succ_r in Hd by lia.
    destruct (Z.lt_ge_cases d (2 ^ Z.of_nat k)) as [Hlt|Hge].
    + apply IH; [assumption | lia].
    + replace (c + d)%Z
        with ((c + 2 ^ Z.of_nat k) + (d - 2 ^ Z.of_nat k))%Z by lia.
      apply IH; [assumption | lia].
Qed.

Lemma binary64_agrees_8192 : binary64_agrees 18 0 8192 = true.
Proof. vm_compute. reflexivity. Qed.

Lemma binary64_agrees_32768 : binary64_agrees 18 0 32768 = true.
Proof. vm_compute. reflexivity. Qed.

Lemma binary64_agrees_131072 : binary64_agrees 18 0 131072 = true.
Proof. vm_compute. reflexivity. Qed.

Lemma MAX_CONTEXT_TOKENS_cases (model_name : string) :
  MAX_CONTEXT_TOKENS model_name = 8192%Z
  \/ MAX_CONTEXT_TOKENS model_name = 32768%Z
  \/ MAX_CONTEXT_TOKENS model_name = 131072%Z.
Proof.
  unfold MAX_CONTEXT_TOKENS, CONTEXT_LIMITS.
  cbn [list_to_map foldr uncurry fst snd].
  rewrite !lookup_insert, lookup_empty.
  repeat case_decide; cbn; tauto.
Qed.

Lemma count_message_tokens_nonneg (messages : list message) :
  (0 <= count_message_tokens messages)%Z.
Proof.
  rewrite count_message_tokens_sum.
  induction messages as [|m messages IH]; unfold total in *; simpl.
  - lia.
  - pose proof (Z.div_pos (Str.len (Chat.content m)) 4) as Hdiv.
    assert (0 <= Str.len (Chat.content m))%Z by (unfold Str.len; lia).
    lia.
Qed.

Lemma get_context_usage_binary64 (model_name : string)
    (messages : list message) :
  (count_message_tokens messages < 2 ^ 18)%Z ->
  status_binary64 (count_message_tokens messages)
    (MAX_CONTEXT_TOKENS model_name) =
  snd (get_context_usage model_name messages).
Proof.
  intros Hlt. rewrite get_context_usage_status.
  pose proof (count_message_tokens_nonneg messages) as Hge.
  fold (status_of_ratio (count_message_tokens messages)
          (MAX_CONTEXT_TOKENS model_name)).
  assert (Hd : (0 <= count_message_tokens messages < 2 ^ Z.of_nat 18)%Z)
    by (change (Z.of_nat 18) with 18%Z; lia).
  replace (count_message_tokens messages)
    with (0 + count_message_tokens messages)%Z by lia.
  destruct (MAX_CONTEXT_TOKENS_cases model_name) as [H|[H|H]]; rewrite H.
  - exact (binary64_agrees_sound 18 0 8192 _ binary64_agrees_8192 Hd).
  - exact (binary64_agrees_sound 18 0 32768 _ binary64_agrees_32768 Hd).
  - exact (binary64_agrees_sound 18 0 131072 _ binary64_agrees_131072 Hd).
Qed.

(** C6, as stated, fails: with the 8192-token window a history estimated at
    7000 tokens is at 85 percent, below the critical threshold. *)
Lemma usage_7000_of_8192_not_critical :
  let messages := repeat (mkMessage "user" "") 700 in
  MAX_CONTEXT_TOKENS "llama-3.2-1b" = 8192%Z /\
  count_message_tokens messages = 7000%Z /\
  snd (get_context_usage "llama-3.2-1b" messages) <> CRITICAL.
Proof. vm_compute. repeat split; discriminate. Qed.

(** C6, amended: for a model whose window is 8192 tokens, a history estimated
    at 7000 tokens is reported WARNING, one at 6000 tokens OK and one at 1000
    tokens OK; CRITICAL is reported from 7373 tokens on and WARNING from 6554
    tokens up to 7372. *)
Theorem usage_of_8192_window (model_name : string) (messages : list message) :
  MAX_CONTEXT_TOKENS model_name = 8192%Z ->
  let current := count_message_tokens messages in
  let status := snd (get_context_usage model_name messages) in
  (current = 7000%Z -> status = WARNING) /\
  (current = 6000%Z -> status = OK) /\
  (current = 1000%Z -> status = OK) /\
  (status = CRITICAL <-> (7373 <= current)%Z) /\
  (status = WARNING <-> (6554 <= current <= 7372)%Z).
Proof.
  intros Hwin current status. subst status.
  rewrite get_context_usage_status. rewrite Hwin. fold current.
  destruct (Z.leb_spec (90 * 8192) (100 * current));
    [|destruct (Z.leb_spec (80 * 8192) (100 * current))];
    repeat split; intros; try discriminate; try lia.
Qed.

Lemma usage_of_8192_window_witness :
  let messages := repeat (mkMessage "user" "") 700 in
  count_message_tokens messages = 7000%Z /\
  snd (get_context_usage "llama-3.2-1b" messages) = WARNING.
Proof.
  intros messages.
  assert (Hcount : count_message_tokens messages = 7000%Z) by (vm_compute; reflexivity).
  split; [exact Hcount|].
  assert (Hwin : MAX_CONTEXT_TOKENS "llama-3.2-1b" = 8192%Z) by (vm_compute; reflexivity).
  exact (proj1 (usage_of_8192_window "llama-3.2-1b" messages Hwin) Hcount).
Defined.

(** ** The matcher *)

Lemma startswith_app (p s : string) : Str.startswith p (p ++ s) = true.
Proof.
  induction p as [|c p IH]; [reflexivity|].
  rewrite sapp_cons. simpl. now rewrite Ascii.eqb_refl.
Qed.

Lemma startswith_inv (p s : string) :
  Str.startswith p s = true -> exists s', s = p ++ s'.
Proof.
  revert s. induction p as [|c p IH]; intros s H.
  - exists s. reflexivity.
  - destruct s as [|d s]; [discriminate|]. simpl in H.
    apply andb_prop in H as [Hc Hp]. apply Ascii.eqb_eq in Hc as ->.
    destruct (IH s Hp) as [s' ->]. exists s'. reflexivity.
Qed.

(** A literal that starts in [u] and not within it runs over its end. *)
Lemma startswith_straddle (p u t : string) :
  Str.startswith p (u ++ t) = true ->
  Str.startswith p u = true \/
  exists p2, p = u ++ p2 /\ p2 <> "" /\ Str.startswith p2 t = true.
Proof.
  revert u. induction p as [|c p IH]; intros u H.
  - left. reflexivity.
  - destruct u as [|d u].
    + right. exists (String c p). repeat split; [discriminate | exact H].
    + rewrite sapp_cons in H. simpl in H.
      apply andb_prop in H as [Hc Hp]. apply Ascii.eqb_eq in Hc as <-.
      destruct (IH u Hp) as [Hin | [p2 [-> [Hne Hp2]]]].
      * left. simpl. now rewrite Ascii.eqb_refl.
      * right. exists p2. repeat split; assumption.
Qed.

Lemma occurs_tail (p s u : string) :
  occurs p s = false -> u ∈ tails s -> Str.startswith p u = false.
Proof.
  induction s as [|c s IH]; intros Hocc Hu; [inversion Hu|].
  simpl in Hocc. apply orb_false_elim in Hocc as [Hhere Hrest].
  simpl in Hu. apply elem_of_cons in Hu as [-> | Hu]; [exact Hhere|].
  now apply IH.
Qed.

Lemma has_char_app (c : ascii) (a b : string) :
  Str.has_char c (a ++ b) = Str.has_char c a || Str.has_char c b.
Proof.
  induction a as [|d a IH]; [reflexivity|].
  rewrite sapp_cons. simpl. rewrite IH. now rewrite orb_assoc.
Qed.

Lemma tails_nonempty (s u : string) : u ∈ tails s -> u <> "".
Proof.
  induction s as [|c s IH]; intros Hu; [inversion Hu|].
  simpl in Hu. apply elem_of_cons in Hu as [-> | Hu]; [discriminate | auto].
Qed.

(** A literal whose first character occurs nowhere else in it cannot start
    in a text free of it and end in a copy of itself that follows. *)
Lemma no_start_before_copy (c : ascii) (p a u rest : string) :
  Str.has_char c p = false ->
  occurs (String c p) a = false ->
  u ∈ tails a ->
  Str.startswith (String c p) (u ++ String c p ++ rest) = false.
Proof.
  intros Hc Hocc Hu.
  destruct (Str.startswith (String c p) (u ++ String c p ++ rest)) eqn:H;
    [|reflexivity].
  exfalso. apply startswith_straddle in H as [Hin | [p2 [Heq [Hne Hp2]]]].
  - rewrite (occurs_tail _ _ _ Hocc Hu) in Hin. discriminate.
  - destruct p2 as [|d p2]; [congruence|].
    rewrite sapp_cons in Hp2. simpl in Hp2.
    apply andb_prop in Hp2 as [Hd _]. apply Ascii.eqb_eq in Hd as ->.
    destruct u as [|e u]; [exact (tails_nonempty _ _ Hu eq_refl)|].
    rewrite sapp_cons in Heq. injection Heq as -> ->.
    rewrite has_char_app in Hc. simpl in Hc. rewrite Ascii.eqb_refl in Hc.
    rewrite orb_true_r in Hc. discriminate.
Qed.

(** A literal cannot start in a text free of it and run over a character
    it does not hold. *)
Lemma no_start_before_char (p a u rest : string) (d : ascii) :
  Str.has_char d p = false ->
  occurs p a = false ->
  u ∈ tails a ->
  Str.startswith p (u ++ String d rest) = false.
Proof.
  intros Hd Hocc Hu.
  destruct (Str.startswith p (u ++ String d rest)) eqn:H; [|reflexivity].
  exfalso. apply startswith_straddle in H as [Hin | [p2 [Heq [Hne Hp2]]]].
  - rewrite (occurs_tail _ _ _ Hocc Hu) in Hin. discriminate.
  - destruct p2 as [|e p2]; [congruence|].
    simpl in Hp2. apply andb_prop in Hp2 as [He _].
    apply Ascii.eqb_eq in He as ->.
    rewrite Heq, has_char_app in Hd. simpl in Hd. rewrite Ascii.eqb_refl in Hd.
    rewrite orb_true_r in Hd. discriminate.
Qed.

(** *** The equations of [run] *)

Lemma run_Seq (r1 r2 : Re.regex) (st : Re.state) :
  Re.run (Re.Seq r1 r2) st = List.flat_map (Re.run r2) (Re.run r1 st).
Proof. reflexivity. Qed.

Lemma run_Alt (r1 r2 : Re.regex) (st : Re.state) :
  Re.run (Re.Alt r1 r2) st = List.app (Re.run r1 st) (Re.run r2 st).
Proof. reflexivity. Qed.

Lemma run_Star (p : ascii -> bool) (g : list string) (s : string) :
  Re.run (Re.Star p) (g, s) = List.map (fun s' => (g, s')) (Re.star_greedy p s).
Proof. reflexivity. Qed.

Lemma run_LazyStar (p : ascii -> bool) (g : list string) (s : string) :
  Re.run (Re.LazyStar p) (g, s) = List.map (fun s' => (g, s')) (Re.star_lazy p s).
Proof. reflexivity. Qed.

Lemma run_Group (r : Re.regex) (g : list string) (s : string) :
  Re.run (Re.Group r) (g, s) =
  List.map (fun st' => (List.app (fst st') [Re.consumed s (snd st')], snd st'))
           (Re.run r (g, s)).
Proof. reflexivity. Qed.

Lemma run_Chr (p : ascii -> bool) (g : list string) (c : ascii) (s : string) :
  Re.run (Re.Chr p) (g, String c s) = if p c then [(g, s)] else [].
Proof. reflexivity. Qed.

Lemma flat_map_one {A B} (f : A -> list B) (x : A) : List.flat_map f [x] = f x.
Proof. simpl. apply List.app_nil_r. Qed.

(** *** Literals *)

Lemma run_chars_app (f : ascii -> ascii -> bool) (p s : string) (g : list string) :
  (forall c, f c c = true) ->
  Re.run (Re.chars f p) (g, p ++ s) = [(g, s)].
Proof.
  intros Hf. revert g. induction p as [|c p IH]; intros g; [reflexivity|].
  rewrite sapp_cons. destruct p as [|d p].
  - simpl. now rewrite Hf.
  - change (Re.chars f (String c (String d p)))
      with (Re.Seq (Re.Chr (f c)) (Re.chars f (String d p))).
    cbn [Re.run fst snd]. rewrite Hf. cbn [List.flat_map].
    rewrite IH. reflexivity.
Qed.

Lemma run_lit_app (p s : string) (g : list string) :
  Re.run (Re.lit p) (g, p ++ s) = [(g, s)].
Proof. apply run_chars_app. intros c. apply Ascii.eqb_refl. Qed.

Lemma run_lit_fail (p s : string) (g : list string) :
  Str.startswith p s = false -> Re.run (Re.lit p) (g, s) = [].
Proof.
  revert s g. induction p as [|c p IH]; intros s g H; [discriminate|].
  destruct s as [|d s].
  - destruct p; reflexivity.
  - simpl in H. unfold Re.lit in *. destruct p as [|e p].
    + simpl. unfold Re.exactly. rewrite andb_true_r in H. now rewrite H.
    + change (Re.chars Re.exactly (String c (String e p)))
        with (Re.Seq (Re.Chr (Re.exactly c)) (Re.chars Re.exactly (String e p))).
      cbn [Re.run fst snd]. change (Re.exactly c d) with (Ascii.eqb c d).
      destruct (Ascii.eqb c d); [|reflexivity].
      cbn [List.flat_map]. rewrite IH by exact H. reflexivity.
Qed.

(** A pattern that opens with a literal matches only where the literal is. *)
Lemma match_here_lit_fail (p : string) (r : Re.regex) (s : string) :
  Str.startswith p s = false ->
  Re.match_here (Re.Seq (Re.lit p) r) s = None.
Proof.
  intros H. unfold Re.match_here. cbn [Re.run].
  now rewrite (run_lit_fail p s [] H).
Qed.

(** *** Repetitions *)

Lemma star_lazy_any (s : string) : Re.star_lazy Re.any s = List.app (tails s) [""].
Proof. induction s as [|c s IH]; [reflexivity|]. simpl. now rewrite IH. Qed.

Lemma star_lazy_any_cons (c : ascii) (s t : string) :
  Re.star_lazy Re.any (String c s ++ t) =
  (String c s ++ t) :: Re.star_lazy Re.any (s ++ t).
Proof. reflexivity. Qed.

Lemma tails_app (a b : string) :
  tails (a ++ b) = List.app (List.map (fun u => u ++ b) (tails a)) (tails b).
Proof.
  induction a as [|c a IH]; [reflexivity|].
  rewrite sapp_cons. simpl. rewrite IH. reflexivity.
Qed.

(** The first candidate of a greedy repetition is the longest one. *)
Lemma star_greedy_all (p : ascii -> bool) (a rest : string) :
  Str.all_chars p a = true ->
  match rest with String c _ => p c = false | "" => True end ->
  exists l, Re.star_greedy p (a ++ rest) = rest :: l.
Proof.
  intros Ha Hrest. induction a as [|c a IH].
  - destruct rest as [|c rest]; simpl.
    + exists []. reflexivity.
    + rewrite Hrest. exists []. reflexivity.
  - simpl in Ha. apply andb_prop in Ha as [Hc Ha].
    destruct (IH Ha) as [l Hl]. rewrite sapp_cons. simpl.
    rewrite Hc, Hl. eexists. reflexivity.
Qed.

Lemma star_greedy_space (s : string) :
  exists l, Re.star_greedy Re.space s = Str.lstrip s :: l.
Proof.
  induction s as [|c s [l IH]]; simpl.
  - exists []. reflexivity.
  - unfold Re.space at 1. destruct (Str.isspace c).
    + rewrite IH. eexists. reflexivity.
    + exists []. reflexivity.
Qed.

Lemma consumed_app (a b : string) : Re.consumed (a ++ b) b = a.
Proof.
  unfold Re.consumed. rewrite slength_app.
  replace (String.length a + String.length b - String.length b)%nat
    with (String.length a) by lia.
  induction a as [|c a IH]; simpl.
  - destruct b; reflexivity.
  - now rewrite IH.
Qed.

Lemma flat_map_nil {A B} (f : A -> list B) (l : list A) :
  (forall x, x ∈ l -> f x = []) -> List.flat_map f l = [].
Proof.
  induction l as [|x l IH]; intros H; [reflexivity|].
  simpl. rewrite (H x) by left. apply IH. intros y Hy. apply H. now right.
Qed.

(** The head of the matcher's list after a lazy run over any characters:
    the positions where the continuation fails are passed over. *)
Lemma run_lazy_any_skip (k : Re.regex) (a b : string) (F : string -> Re.state) :
  (forall u, snd (F u) = u) ->
  (forall u, u ∈ tails a -> forall g', Re.run k (g', u ++ b) = []) ->
  List.flat_map (Re.run k) (List.map F (Re.star_lazy Re.any (a ++ b))) =
  List.flat_map (Re.run k) (List.map F (Re.star_lazy Re.any b)).
Proof.
  intros HF Hfail. rewrite !star_lazy_any, tails_app.
  rewrite <- List.app_assoc, List.map_app, List.flat_map_app.
  rewrite flat_map_nil; [reflexivity|].
  intros st Hst. apply list_elem_of_In, in_map_iff in Hst as [v [<- Hv]].
  apply in_map_iff in Hv as [u [<- Hu]]. apply list_elem_of_In in Hu.
  specialize (Hfail u Hu (fst (F (u ++ b)))).
  destruct (F (u ++ b)) as [g' s'] eqn:HFu.
  pose proof (HF (u ++ b)) as Hs. rewrite HFu in Hs. simpl in Hs. subst s'.
  exact Hfail.
Qed.

(** *** Searching *)

Lemma search_here (r : Re.regex) (s : string) (groups : list string)
    (rest : string) :
  Re.match_here r s = Some (groups, rest) ->
  Re.search r s = Some ("", groups, rest).
Proof. intros H. destruct s; simpl; now rewrite H. Qed.

Lemma search_skip (r : Re.regex) (a s : string) :
  (forall u, u ∈ tails a -> Re.match_here r (u ++ s) = None) ->
  Re.search r (a ++ s) =
  match Re.search r s with
  | Some (before, groups, rest) => Some (a ++ before, groups, rest)
  | None => None
  end.
Proof.
  induction a as [|c a IH]; intros H.
  - change ("" ++ s) with s.
    destruct (Re.search r s) as [[[? ?] ?]|]; reflexivity.
  - rewrite sapp_cons. simpl. rewrite <- sapp_cons.
    rewrite (H (String c a)) by (simpl; left).
    rewrite IH by (intros u Hu; apply H; simpl; now right).
    destruct (Re.search r s) as [[[? ?] ?]|]; reflexivity.
Qed.

Lemma search_none (r : Re.regex) (s : string) :
  Re.match_here r "" = None ->
  (forall u, u ∈ tails s -> Re.match_here r u = None) ->
  Re.search r s = None.
Proof.
  intros Hnil H. induction s as [|c s IH]; simpl.
  - now rewrite Hnil.
  - rewrite (H (String c s)) by (simpl; left).
    rewrite IH; [reflexivity|]. intros u Hu. apply H. simpl. now right.
Qed.

(** *** Removing the matches *)

Lemma remove_from_covered (r : Re.regex) (m rest : string) :
  Re.remove_from r (String.length m) (m ++ rest) = Re.remove_from r 0 rest.
Proof.
  induction m as [|c m IH]; [reflexivity|].
  rewrite sapp_cons. simpl. exact IH.
Qed.

Lemma remove_all_skip (r : Re.regex) (a s : string) :
  (forall u, u ∈ tails a -> Re.match_here r (u ++ s) = None) ->
  Re.remove_all r (a ++ s) = a ++ Re.remove_all r s.
Proof.
  unfold Re.remove_all. induction a as [|c a IH]; intros H; [reflexivity|].
  rewrite !sapp_cons. simpl. rewrite <- sapp_cons.
  rewrite (H (String c a)) by (simpl; left).
  rewrite IH by (intros u Hu; apply H; simpl; now right). reflexivity.
Qed.

Lemma remove_all_match (r : Re.regex) (c : ascii) (m rest : string)
    (groups : list string) :
  Re.match_here r (String c m ++ rest) = Some (groups, rest) ->
  Re.remove_all r (String c m ++ rest) = Re.remove_all r rest.
Proof.
  intros H. unfold Re.remove_all. rewrite sapp_cons in *. simpl. rewrite H.
  rewrite slength_app.
  replace (S (String.length m + String.length rest) - String.length rest)%nat
    with (S (String.length m)) by lia.
  apply remove_from_covered.
Qed.

Lemma remove_all_none (r : Re.regex) (s : string) :
  (forall u, u ∈ tails s -> Re.match_here r u = None) ->
  Re.remove_all r s = s.
Proof.
  intros H. rewrite <- (sapp_nil_r s) at 1.
  rewrite remove_all_skip.
  - unfold Re.remove_all. simpl.
    destruct (Re.match_here r "") as [[? ?]|]; apply sapp_nil_r.
  - intros u Hu. rewrite sapp_nil_r. now apply H.
Qed.

(** ** Thinking and final answer *)

Lemma lstrip_split (s : string) : exists ws, s = ws ++ Str.lstrip s.
Proof.
  induction s as [|c s [ws IH]].
  - exists "". reflexivity.
  - simpl. destruct (Str.isspace c).
    + exists (String c ws). rewrite sapp_cons. now rewrite <- IH.
    + exists "". reflexivity.
Qed.

Lemma lstrip_tail (s u : string) : u ∈ tails (Str.lstrip s) -> u ∈ tails s.
Proof.
  induction s as [|c s IH]; simpl; [auto|].
  destruct (Str.isspace c); [|auto]. intros Hu. right. auto.
Qed.

Lemma split_once_none (sep s : string) :
  occurs sep s = false -> Str.split_once sep s = None.
Proof.
  induction s as [|c s IH]; simpl; intros H;
    apply orb_false_elim in H as [Hhere Hrest]; rewrite Hhere; [reflexivity|].
  now rewrite IH.
Qed.

Lemma closing_fails_inside (inner post u : string) (g : list string) :
  occurs "</thinking>" inner = false ->
  u ∈ tails inner ->
  Re.run (Re.lit "</thinking>") (g, u ++ "</thinking>" ++ post) = [].
Proof.
  intros Hocc Hu. apply run_lit_fail.
  apply (no_start_before_copy "<" "/thinking>" inner u post); auto.
Qed.

Lemma match_thinking_pattern (inner post : string) :
  occurs "</thinking>" inner = false ->
  Re.match_here thinking_pattern ("<thinking>" ++ inner ++ "</thinking>" ++ post) =
  Some ([inner], post).
Proof.
  intros Hocc. unfold Re.match_here, thinking_pattern. cbn [Re.seq].
  rewrite run_Seq, run_lit_app, flat_map_one.
  rewrite run_Seq, run_Group, run_LazyStar, List.map_map.
  rewrite run_lazy_any_skip;
    [|intros; reflexivity|intros u Hu g'; now apply (closing_fails_inside inner)].
  rewrite star_lazy_any_cons. cbn [List.map List.flat_map fst snd].
  rewrite run_lit_app. cbn [List.app].
  rewrite consumed_app. reflexivity.
Qed.

Lemma match_thinking_block_pattern (inner post : string) :
  occurs "</thinking>" inner = false ->
  Re.match_here thinking_block_pattern
    ("<thinking>" ++ inner ++ "</thinking>" ++ post) =
  Some ([], Str.lstrip post).
Proof.
  intros Hocc. unfold Re.match_here, thinking_block_pattern. cbn [Re.seq].
  rewrite run_Seq, run_lit_app, flat_map_one.
  rewrite run_Seq, run_LazyStar.
  rewrite run_lazy_any_skip;
    [|intros; reflexivity
     |intros u Hu g'; rewrite run_Seq; now rewrite (closing_fails_inside inner)].
  rewrite star_lazy_any_cons. cbn [List.map List.flat_map].
  rewrite run_Seq, run_lit_app, flat_map_one, run_Star.
  destruct (star_greedy_space post) as [l ->]. reflexivity.
Qed.

Lemma opening_fails_before (r : Re.regex) (pre rest u : string) :
  occurs "<thinking>" pre = false ->
  u ∈ tails pre ->
  Re.match_here (Re.Seq (Re.lit "<thinking>") r) (u ++ "<thinking>" ++ rest) = None.
Proof.
  intros Hocc Hu. apply match_here_lit_fail.
  apply (no_start_before_copy "<" "thinking>" pre u rest); auto.
Qed.

Lemma opening_fails_without (r : Re.regex) (s u : string) :
  occurs "<thinking>" s = false ->
  u ∈ tails s ->
  Re.match_here (Re.Seq (Re.lit "<thinking>") r) u = None.
Proof.
  intros Hocc Hu. apply match_here_lit_fail. exact (occurs_tail _ _ _ Hocc Hu).
Qed.

(** Where the first region lies, what [parse_thinking_response] returns. *)
Lemma parse_thinking_response_region (pre inner post : string) :
  occurs "<thinking>" pre = false ->
  occurs "</thinking>" inner = false ->
  parse_thinking_response (pre ++ "<thinking>" ++ inner ++ "</thinking>" ++ post) =
  (Str.strip inner,
   Str.strip (pre ++ Re.remove_all thinking_block_pattern (Str.lstrip post))).
Proof.
  intros Hpre Hinner. unfold parse_thinking_response.
  rewrite search_skip
    by (intros u Hu; apply (opening_fails_before _ pre); assumption).
  rewrite (search_here _ _ _ _ (match_thinking_pattern inner post Hinner)).
  cbn [group Nat.pred nth]. f_equal. f_equal.
  rewrite remove_all_skip
    by (intros u Hu; apply (opening_fails_before _ pre); assumption).
  f_equal.
  pose proof (match_thinking_block_pattern inner post Hinner) as Hm.
  destruct (lstrip_split post) as [ws Hws].
  remember (Str.lstrip post) as rest eqn:Hrest. clear Hrest. subst post.
  replace ("<thinking>" ++ inner ++ "</thinking>" ++ ws ++ rest)
    with (String "<" ("thinking>" ++ inner ++ "</thinking>" ++ ws) ++ rest)
    in * by (rewrite ?sapp_cons, ?sapp_assoc; reflexivity).
  exact (remove_all_match _ _ _ _ _ Hm).
Qed.

(** C4, as stated, fails: the white space after the closing tag goes with
    the region, also in the middle of the text. *)
Lemma parse_thinking_response_joins_words :
  snd (parse_thinking_response ("X" ++ "<thinking>" ++ "A" ++ "</thinking>" ++ " Y"))
  <> Str.strip ("X" ++ " Y").
Proof. vm_compute. discriminate. Qed.

(** C4, amended: [parse_thinking_response] is a function on all strings.
    Where the text holds a region, the thinking process is the trimmed inner
    text of the first one, and the final answer is the text around it,
    without the white space that follows the closing tag and without any
    further region and the white space after it, trimmed; with no opening tag
    after the region this is the text before it followed by the text after
    it less its leading white space, trimmed.  A text with no opening tag and
    no blank line gives the placeholder and the whole text.  The tagged
    example of the specification gives A and B. *)
Theorem parse_thinking_response_spec :
  parse_thinking_response ("<thinking>A</thinking>" ++ Str.nl ++ Str.nl ++ "B")
  = ("A", "B") /\
  (forall pre inner post : string,
     occurs "<thinking>" pre = false ->
     occurs "</thinking>" inner = false ->
     let response := pre ++ "<thinking>" ++ inner ++ "</thinking>" ++ post in
     parse_thinking_response response =
       (Str.strip inner,
        Str.strip (pre ++ Re.remove_all thinking_block_pattern (Str.lstrip post)))
     /\ (occurs "<thinking>" post = false ->
         parse_thinking_response response =
           (Str.strip inner, Str.strip (pre ++ Str.lstrip post)))) /\
  (forall response : string,
     occurs "<thinking>" response = false ->
     occurs (Str.nl ++ Str.nl) response = false ->
     parse_thinking_response response =
       ("No explicit thinking process found", response)).
Proof.
  split; [vm_compute; reflexivity|]. split.
  - intros pre inner post Hpre Hinner response. subst response.
    rewrite parse_thinking_response_region by assumption.
    split; [reflexivity|]. intros Hpost.
    rewrite remove_all_none; [reflexivity|].
    intros u Hu. apply (opening_fails_without _ post); [assumption|].
    now apply lstrip_tail.
  - intros response Htag Hblank. unfold parse_thinking_response.
    rewrite search_none.
    + now rewrite split_once_none.
    + reflexivity.
    + intros u Hu. now apply (opening_fails_without _ response).
Qed.

Lemma parse_thinking_response_spec_witness :
  parse_thinking_response ("" ++ "<thinking>" ++ "A" ++ "</thinking>"
                           ++ (Str.nl ++ Str.nl ++ "B"))
  = (Str.strip "A", Str.strip ("" ++ Str.lstrip (Str.nl ++ Str.nl ++ "B"))) /\
  parse_thinking_response "no tags here"
  = ("No explicit thinking process found", "no tags here").
Proof.
  destruct parse_thinking_response_spec as [_ [Hregion Hplain]]. split.
  - apply (Hregion "" "A" (Str.nl ++ Str.nl ++ "B")); reflexivity.
  - apply Hplain; reflexivity.
Defined.

(** *** What a run reads and captures *)

Lemma substring_refl (s : string) : substring s s.
Proof. exists "", "". now rewrite sapp_nil_r. Qed.

Lemma substring_nil (s : string) : substring "" s.
Proof. exists "", s. reflexivity. Qed.

Lemma substring_trans (a b c : string) :
  substring a b -> substring b c -> substring a c.
Proof.
  intros [u [v ->]] [x [y ->]]. exists (x ++ u), (v ++ y).
  now rewrite !sapp_assoc.
Qed.

Lemma substring_app_r (a m s : string) : substring a s -> substring a (m ++ s).
Proof.
  intros [u [v ->]]. exists (m ++ u), v. now rewrite !sapp_assoc.
Qed.

Lemma substring_cons (a : string) (c : ascii) (s : string) :
  substring a s -> substring a (String c s).
Proof.
  intros H. apply (substring_app_r a (String c "") s) in H. exact H.
Qed.

Lemma star_greedy_suffix (p : ascii -> bool) (s t : string) :
  t ∈ Re.star_greedy p s -> exists m, s = m ++ t.
Proof.
  induction s as [|c s IH]; simpl; intros Ht.
  - apply list_elem_of_singleton in Ht as ->. exists "". reflexivity.
  - destruct (p c).
    + apply elem_of_app in Ht as [Ht | Ht].
      * destruct (IH Ht) as [m ->]. exists (String c m). reflexivity.
      * apply list_elem_of_singleton in Ht as ->. exists "". reflexivity.
    + apply list_elem_of_singleton in Ht as ->. exists "". reflexivity.
Qed.

Lemma star_lazy_suffix (p : ascii -> bool) (s t : string) :
  t ∈ Re.star_lazy p s -> exists m, s = m ++ t.
Proof.
  induction s as [|c s IH]; simpl; intros Ht.
  - apply list_elem_of_singleton in Ht as ->. exists "". reflexivity.
  - destruct (p c).
    + apply elem_of_cons in Ht as [-> | Ht]; [exists ""; reflexivity|].
      destruct (IH Ht) as [m ->]. exists (String c m). reflexivity.
    + apply list_elem_of_singleton in Ht as ->. exists "". reflexivity.
Qed.

(** A run reads a prefix of the text, and what it captures lies in the
    text. *)
Lemma run_reads (r : Re.regex) (st st' : Re.state) :
  st' ∈ Re.run r st ->
  (exists m, snd st = m ++ snd st') /\
  exists groups, fst st' = List.app (fst st) groups /\
                 Forall (fun g => substring g (snd st)) groups.
Proof.
  revert st st'. induction r as [|p|r1 IH1 r2 IH2|r1 IH1 r2 IH2|p|p|r IH];
    intros [g s] st' Hin; cbn [Re.run fst snd] in *.
  - apply list_elem_of_singleton in Hin as ->. split; [exists ""; reflexivity|].
    exists []. split; [now rewrite List.app_nil_r | constructor].
  - destruct s as [|c s]; [inversion Hin|]. destruct (p c); [|inversion Hin].
    apply list_elem_of_singleton in Hin as ->. split.
    + exists (String c ""). reflexivity.
    + exists []. split; [now rewrite List.app_nil_r | constructor].
  - apply list_elem_of_In, in_flat_map in Hin as [st1 [H1 H2]].
    apply list_elem_of_In in H1, H2.
    destruct (IH1 _ _ H1) as [[m1 Hm1] [g1 [Hg1 Hs1]]].
    destruct (IH2 _ _ H2) as [[m2 Hm2] [g2 [Hg2 Hs2]]].
    cbn [fst snd] in *. split.
    + exists (m1 ++ m2). rewrite Hm1, Hm2. now rewrite sapp_assoc.
    + exists (List.app g1 g2). split.
      * rewrite Hg2, Hg1. now rewrite List.app_assoc.
      * apply Forall_app. split; [exact Hs1|].
        eapply Forall_impl; [exact Hs2|]. intros x Hx. cbn beta in Hx.
        rewrite Hm1. now apply substring_app_r.
  - apply elem_of_app in Hin as [Hin | Hin];
      [exact (IH1 _ _ Hin) | exact (IH2 _ _ Hin)].
  - apply list_elem_of_In, in_map_iff in Hin as [t [<- Ht]].
    apply list_elem_of_In, star_greedy_suffix in Ht. split; [exact Ht|].
    exists []. split; [now rewrite List.app_nil_r | constructor].
  - apply list_elem_of_In, in_map_iff in Hin as [t [<- Ht]].
    apply list_elem_of_In, star_lazy_suffix in Ht. split; [exact Ht|].
    exists []. split; [now rewrite List.app_nil_r | constructor].
  - apply list_elem_of_In, in_map_iff in Hin as [st1 [<- H1]].
    apply list_elem_of_In in H1.
    destruct (IH _ _ H1) as [[m Hm] [g1 [Hg1 Hs1]]]. cbn [fst snd] in *.
    split; [exists m; exact Hm|].
    exists (List.app g1 [Re.consumed s (snd st1)]). split.
    + rewrite Hg1. now rewrite List.app_assoc.
    + apply Forall_app. split; [exact Hs1|]. constructor; [|constructor].
      rewrite Hm at 1. rewrite consumed_app. exists "", (snd st1).
      rewrite Hm. reflexivity.
Qed.

Lemma match_here_reads (r : Re.regex) (s : string) (groups : list string)
    (rest : string) :
  Re.match_here r s = Some (groups, rest) ->
  (exists m, s = m ++ rest) /\ Forall (fun g => substring g s) groups.
Proof.
  unfold Re.match_here. intros H.
  destruct (Re.run r ([], s)) as [|st l] eqn:Hrun; [discriminate|].
  injection H as ->.
  destruct (run_reads r ([], s) (groups, rest)) as [Hm [gs [Hg Hs]]].
  - rewrite Hrun. left.
  - cbn [fst snd List.app] in *. subst gs. split; assumption.
Qed.

(** [re.findall] returns pieces of the text it is given. *)
Lemma findall_from_reads (r : Re.regex) (s : string) (covered : nat) :
  Forall (Forall (fun g => substring g s)) (Re.findall_from r covered s).
Proof.
  revert covered. induction s as [|c s IH]; intros covered.
  - destruct covered; simpl; [|constructor].
    destruct (Re.match_here r "") as [[groups rest]|] eqn:Hm; [|constructor].
    constructor; [|constructor]. exact (proj2 (match_here_reads _ _ _ _ Hm)).
  - assert (Hs : forall k, Forall (Forall (fun g => substring g (String c s)))
                             (Re.findall_from r k s)).
    { intros k. eapply Forall_impl; [apply IH|]. intros gs Hgs. cbn beta in Hgs.
      eapply Forall_impl; [exact Hgs|]. intros g Hg. now apply substring_cons. }
    destruct covered; simpl; [|apply Hs].
    destruct (Re.match_here r (String c s)) as [[groups rest]|] eqn:Hm; [|apply Hs].
    constructor; [|apply Hs]. exact (proj2 (match_here_reads _ _ _ _ Hm)).
Qed.

(** *** The successive matches *)

Lemma findall_from_covered (r : Re.regex) (m rest : string) :
  Re.findall_from r (String.length m) (m ++ rest) = Re.findall_from r 0 rest.
Proof.
  induction m as [|c m IH]; [reflexivity|].
  rewrite sapp_cons. simpl. exact IH.
Qed.

Lemma findall_here (r : Re.regex) (c : ascii) (m rest : string)
    (groups : list string) :
  Re.match_here r (String c m ++ rest) = Some (groups, rest) ->
  Re.findall r (String c m ++ rest) = groups :: Re.findall r rest.
Proof.
  intros H. unfold Re.findall. rewrite sapp_cons in *. simpl. rewrite H.
  f_equal. rewrite slength_app.
  replace (Nat.pred (S (String.length m + String.length rest)
                     - String.length rest))
    with (String.length m) by lia.
  apply findall_from_covered.
Qed.

Lemma findall_step (r : Re.regex) (c : ascii) (s : string) :
  Re.match_here r (String c s) = None ->
  Re.findall r (String c s) = Re.findall r s.
Proof. intros H. unfold Re.findall. simpl. now rewrite H. Qed.

Lemma findall_skip (r : Re.regex) (a s : string) :
  (forall u, u ∈ tails a -> Re.match_here r (u ++ s) = None) ->
  Re.findall r (a ++ s) = Re.findall r s.
Proof.
  induction a as [|c a IH]; intros H; [reflexivity|].
  rewrite sapp_cons, findall_step.
  - apply IH. intros u Hu. apply H. simpl. now right.
  - rewrite <- sapp_cons. apply H. simpl. left.
Qed.

(** *** The first way to match *)

Lemma match_here_hd (r : Re.regex) (s : string) :
  Re.match_here r s = hd_error (Re.run r ([], s)).
Proof. unfold Re.match_here. destruct (Re.run r ([], s)); reflexivity. Qed.

Lemma hd_flat_map {A B} (f : A -> list B) (l : list A) (x : A) (y : B) :
  hd_error l = Some x -> hd_error (f x) = Some y ->
  hd_error (List.flat_map f l) = Some y.
Proof.
  destruct l as [|x' l]; [discriminate|]. intros [= ->] Hy. simpl.
  destruct (f x); [discriminate|]. exact Hy.
Qed.

Lemma hd_run_Seq (r1 r2 : Re.regex) (st st1 st2 : Re.state) :
  hd_error (Re.run r1 st) = Some st1 ->
  hd_error (Re.run r2 st1) = Some st2 ->
  hd_error (Re.run (Re.Seq r1 r2) st) = Some st2.
Proof. intros H1 H2. rewrite run_Seq. eapply hd_flat_map; eassumption. Qed.

Lemma hd_run_chars (f : ascii -> ascii -> bool) (p s : string) (g : list string) :
  (forall c, f c c = true) ->
  hd_error (Re.run (Re.chars f p) (g, p ++ s)) = Some (g, s).
Proof. intros Hf. now rewrite run_chars_app. Qed.

Lemma hd_run_lit (p s : string) (g : list string) :
  hd_error (Re.run (Re.lit p) (g, p ++ s)) = Some (g, s).
Proof. now rewrite run_lit_app. Qed.

Lemma is_nocase_refl (c : ascii) : Re.is_nocase c c = true.
Proof. unfold Re.is_nocase. apply Ascii.eqb_refl. Qed.

Lemma hd_run_lit_nocase (p s : string) (g : list string) :
  hd_error (Re.run (Re.lit_nocase p) (g, p ++ s)) = Some (g, s).
Proof. apply hd_run_chars, is_nocase_refl. Qed.

Lemma hd_run_Chr (p : ascii -> bool) (c : ascii) (s : string) (g : list string) :
  p c = true -> hd_error (Re.run (Re.Chr p) (g, String c s)) = Some (g, s).
Proof. intros H. rewrite run_Chr, H. reflexivity. Qed.

Lemma hd_run_Star (p : ascii -> bool) (a rest : string) (g : list string) :
  Str.all_chars p a = true ->
  match rest with String c _ => p c = false | "" => True end ->
  hd_error (Re.run (Re.Star p) (g, a ++ rest)) = Some (g, rest).
Proof.
  intros Ha Hrest. rewrite run_Star.
  destruct (star_greedy_all p a rest Ha Hrest) as [l ->]. reflexivity.
Qed.

Lemma hd_run_Star_none (p : ascii -> bool) (c : ascii) (s : string)
    (g : list string) :
  p c = false ->
  hd_error (Re.run (Re.Star p) (g, String c s)) = Some (g, String c s).
Proof. intros H. rewrite run_Star. simpl. now rewrite H. Qed.

Lemma hd_run_Chr_app (p : ascii -> bool) (c : ascii) (s : string)
    (g : list string) :
  p c = true ->
  hd_error (Re.run (Re.Chr p) (g, String c "" ++ s)) = Some (g, s).
Proof. apply hd_run_Chr. Qed.

Lemma hd_run_Star_none_app (p : ascii -> bool) (c : ascii) (a s : string)
    (g : list string) :
  p c = false ->
  hd_error (Re.run (Re.Star p) (g, String c a ++ s)) = Some (g, String c a ++ s).
Proof. apply hd_run_Star_none. Qed.

Lemma hd_run_plus (p : ascii -> bool) (c : ascii) (a rest : string)
    (g : list string) :
  Str.all_chars p (String c a) = true ->
  match rest with String d _ => p d = false | "" => True end ->
  hd_error (Re.run (Re.plus p) (g, String c a ++ rest)) = Some (g, rest).
Proof.
  intros Ha Hrest. simpl in Ha. apply andb_prop in Ha as [Hc Ha].
  unfold Re.plus. rewrite sapp_cons.
  eapply hd_run_Seq; [now apply hd_run_Chr | now apply hd_run_Star].
Qed.

Lemma hd_run_Group (r : Re.regex) (m rest : string) (g g' : list string) :
  hd_error (Re.run r (g, m ++ rest)) = Some (g', rest) ->
  hd_error (Re.run (Re.Group r) (g, m ++ rest)) = Some (List.app g' [m], rest).
Proof.
  intros H. rewrite run_Group.
  destruct (Re.run r (g, m ++ rest)) as [|st l]; [discriminate|].
  injection H as ->. cbn [List.map hd_error fst snd]. now rewrite consumed_app.
Qed.

Lemma hd_run_Alt_l (r1 r2 : Re.regex) (st st1 : Re.state) :
  hd_error (Re.run r1 st) = Some st1 ->
  hd_error (Re.run (Re.Alt r1 r2) st) = Some st1.
Proof.
  intros H. rewrite run_Alt. destruct (Re.run r1 st); [discriminate | exact H].
Qed.

Lemma hd_run_Alt_r (r1 r2 : Re.regex) (st st2 : Re.state) :
  Re.run r1 st = [] ->
  hd_error (Re.run r2 st) = Some st2 ->
  hd_error (Re.run (Re.Alt r1 r2) st) = Some st2.
Proof. intros H1 H2. rewrite run_Alt, H1. exact H2. Qed.

(** A lazy run over any characters, captured, up to the first place where
    the rest of the pattern matches. *)
Lemma hd_run_lazy_group (k : Re.regex) (a b : string) (g : list string)
    (st : Re.state) :
  (forall u, u ∈ tails a -> forall g', Re.run k (g', u ++ b) = []) ->
  hd_error (Re.run k (List.app g [a], b)) = Some st ->
  hd_error (Re.run (Re.Seq (Re.Group (Re.LazyStar Re.any)) k) (g, a ++ b))
  = Some st.
Proof.
  intros Hfail Hk.
  rewrite run_Seq, run_Group, run_LazyStar, List.map_map.
  rewrite run_lazy_any_skip; [|intros; reflexivity|exact Hfail].
  cbn [fst snd].
  assert (Hb : exists l, Re.star_lazy Re.any b = b :: l)
    by (destruct b; simpl; eexists; reflexivity).
  destruct Hb as [l ->]. cbn [List.map List.flat_map].
  rewrite consumed_app.
  destruct (Re.run k (List.app g [a], b)); [discriminate | exact Hk].
Qed.

(** ** The parameters of a [read_file] call *)

Lemma search_group_here (r : Re.regex) (s : string) (g : string)
    (gs : list string) (rest : string) :
  hd_error (Re.run r ([], s)) = Some (g :: gs, rest) ->
  search_group r s = Some g.
Proof.
  intros H. unfold search_group.
  rewrite (search_here r s (g :: gs) rest); [reflexivity|].
  now rewrite match_here_hd.
Qed.

Lemma search_group_skip (r : Re.regex) (a s : string) :
  (forall u, u ∈ tails a -> Re.match_here r (u ++ s) = None) ->
  search_group r (a ++ s) = search_group r s.
Proof.
  intros H. unfold search_group. rewrite search_skip by exact H.
  destruct (Re.search r s) as [[[? ?] ?]|]; reflexivity.
Qed.

Lemma run_chars_first (f : ascii -> ascii -> bool) (c x : ascii) (p s : string)
    (g : list string) :
  f c x = false -> Re.run (Re.chars f (String c p)) (g, String x s) = [].
Proof.
  intros H. destruct p as [|d p].
  - simpl. now rewrite H.
  - change (Re.chars f (String c (String d p)))
      with (Re.Seq (Re.Chr (f c)) (Re.chars f (String d p))).
    rewrite run_Seq, run_Chr, H. reflexivity.
Qed.

(** A pattern that opens with a key matches only where the first character
    of the key is. *)
Lemma match_here_first (f : ascii -> ascii -> bool) (c x : ascii) (p s : string)
    (r : Re.regex) :
  f c x = false ->
  Re.match_here (Re.Seq (Re.chars f (String c p)) r) (String x s) = None.
Proof.
  intros H. unfold Re.match_here. rewrite run_Seq, run_chars_first by exact H.
  reflexivity.
Qed.

Lemma all_chars_tail (p : ascii -> bool) (s u : string) :
  Str.all_chars p s = true -> u ∈ tails s -> Str.all_chars p u = true.
Proof.
  induction s as [|c s IH]; intros Hs Hu; [inversion Hu|].
  simpl in Hu. apply elem_of_cons in Hu as [-> | Hu]; [exact Hs|].
  simpl in Hs. apply andb_prop in Hs as [_ Hs]. auto.
Qed.

Lemma tails_cons (s u : string) :
  u ∈ tails s -> exists c u', u = String c u'.
Proof.
  intros Hu. destruct u as [|c u']; [|eauto].
  exfalso. exact (tails_nonempty _ _ Hu eq_refl).
Qed.


(** *** The shape of the patterns *)

Lemma quoted_pattern_shape (key : string) :
  quoted_pattern key =
  Re.Seq (Re.chars Re.exactly key)
    (Re.Seq (Re.Star Re.space)
       (Re.Seq (Re.Chr (Re.exactly "="%char))
          (Re.Seq (Re.Star Re.space)
             (Re.Seq (Re.Chr Re.quote)
                (Re.Seq (Re.Group (Re.plus Re.not_quote)) (Re.Chr Re.quote)))))).
Proof. reflexivity. Qed.

Lemma number_pattern_shape (key : string) :
  number_pattern key =
  Re.Seq (Re.chars Re.exactly key)
    (Re.Seq (Re.Star Re.space)
       (Re.Seq (Re.Chr (Re.exactly "="%char))
          (Re.Seq (Re.Star Re.space) (Re.Group (Re.plus Re.digit))))).
Proof. reflexivity. Qed.

Lemma entire_file_pattern_shape :
  entire_file_pattern =
  Re.Seq (Re.chars Re.is_nocase "should_read_entire_file")
    (Re.Seq (Re.Star Re.space)
       (Re.Seq (Re.Chr (Re.is_nocase "="%char))
          (Re.Seq (Re.Star Re.space)
             (Re.Group (Re.Alt (Re.lit_nocase "true") (Re.lit_nocase "false")))))).
Proof. reflexivity. Qed.

Lemma lower_char_equals (x : ascii) :
  Ascii.eqb x "="%char = false -> Re.is_nocase "="%char x = false.
Proof.
  unfold Re.is_nocase.
  destruct x as [[] [] [] [] [] [] [] []]; vm_compute; congruence.
Qed.

Lemma has_char_all (q : ascii) (s : string) :
  Str.has_char q s = false ->
  Str.all_chars (fun x => negb (Ascii.eqb x q)) s = true.
Proof.
  induction s as [|c s IH]; [reflexivity|].
  cbn [Str.all_chars Str.has_char]. intros H.
  apply orb_false_elim in H as [Hc Hs]. now rewrite Hc, (IH Hs).
Qed.

Lemma not_quote_char (c : ascii) :
  Ascii.eqb c (ascii_of_nat 34) = false -> Ascii.eqb c "'"%char = false ->
  Re.not_quote c = true.
Proof. destruct c as [[] [] [] [] [] [] [] []]; vm_compute; congruence. Qed.

Lemma not_quote_all (s : string) :
  Str.has_char (ascii_of_nat 34) s = false -> Str.has_char "'"%char s = false ->
  Str.all_chars Re.not_quote s = true.
Proof.
  induction s as [|c s IH]; [reflexivity|].
  cbn [Str.all_chars Str.has_char]. intros H1 H2.
  apply orb_false_elim in H1 as [Hc1 Hs1]. apply orb_false_elim in H2 as [Hc2 Hs2].
  now rewrite not_quote_char, IH.
Qed.

Lemma plain_facts (s : string) :
  plain s = true ->
  s <> "" /\
  Str.all_chars Re.not_quote s = true /\
  Str.has_char ")"%char s = false /\
  occurs "TOOL:" s = false.
Proof.
  unfold plain. intros H.
  apply andb_prop in H as [H Htool]. apply andb_prop in H as [H Hparen].
  apply andb_prop in H as [H Hsq]. apply andb_prop in H as [Hne Hdq].
  apply negb_true_iff in Htool, Hparen, Hsq, Hdq, Hne.
  repeat split; try assumption.
  - intros ->. discriminate.
  - now apply not_quote_all.
Qed.

(** Passing over a known text, one position after the other. *)
Ltac pass_lit :=
  let u := fresh "u" in
  let Hu := fresh "Hu" in
  intros u Hu; cbn [tails] in Hu;
  repeat (apply elem_of_cons in Hu as [-> | Hu];
          [apply match_here_lit_fail; reflexivity|]);
  inversion Hu.

Ltac pass_first :=
  let u := fresh "u" in
  let Hu := fresh "Hu" in
  intros u Hu; cbn [tails] in Hu;
  repeat (apply elem_of_cons in Hu as [-> | Hu];
          [rewrite sapp_cons; apply match_here_first; reflexivity|]);
  inversion Hu.

Lemma search_group_step (r : Re.regex) (c : ascii) (s : string) :
  Re.match_here r (String c s) = None ->
  search_group r (String c s) = search_group r s.
Proof.
  intros H. apply (search_group_skip r (String c "") s).
  intros u Hu. cbn [tails] in Hu. apply list_elem_of_singleton in Hu as ->.
  exact H.
Qed.

Lemma decimal_not_space (c : ascii) :
  Str.isdecimal c = true -> Re.space c = false.
Proof.
  unfold Re.space. destruct c as [[] [] [] [] [] [] [] []]; vm_compute; congruence.
Qed.

Lemma decimal_not_key (k c : ascii) :
  Str.isdecimal k = false -> Str.isdecimal c = true -> Re.exactly k c = false.
Proof.
  intros Hk Hc. unfold Re.exactly. destruct (Ascii.eqb k c) eqn:E; [|reflexivity].
  apply Ascii.eqb_eq in E. congruence.
Qed.

Lemma plain_target_facts (s : string) :
  plain_target s = true -> plain s = true /\ Str.strip s = s.
Proof.
  unfold plain_target. intros H. apply andb_prop in H as [Hplain Hstrip].
  apply String.eqb_eq in Hstrip. now split.
Qed.

(** ** The arguments of a call *)

(** *** Where a key is written *)

Section Key.

Variable f : ascii -> ascii -> bool.

Hypothesis f_equals : forall x, f "="%char x = true -> x = "="%char.

Lemma run_chars_heads (key s : string) (g : list string) :
  Re.run (Re.chars f key) (g, s) =
  match heads f key s with
  | Some rest => [(g, rest)]
  | None => []
  end.
Proof.
  revert s. induction key as [|c key IH]; intros s; [reflexivity|].
  destruct key as [|d key].
  - destruct s as [|x s]; [reflexivity|].
    cbn [Re.chars heads]. rewrite run_Chr. destruct (f c x); reflexivity.
  - change (Re.chars f (String c (String d key)))
      with (Re.Seq (Re.Chr (f c)) (Re.chars f (String d key))).
    rewrite run_Seq. destruct s as [|x s]; [reflexivity|].
    rewrite run_Chr. cbn [heads]. destruct (f c x); [|reflexivity].
    rewrite flat_map_one. apply IH.
Qed.

Lemma star_greedy_space_cases (s t : string) :
  t ∈ Re.star_greedy Re.space s ->
  t = Str.lstrip s \/ exists c t', t = String c t' /\ Str.isspace c = true.
Proof.
  induction s as [|c s IH]; simpl; intros Ht.
  - apply list_elem_of_singleton in Ht as ->. now left.
  - unfold Re.space in Ht at 1. destruct (Str.isspace c) eqn:Hc.
    + apply elem_of_app in Ht as [Ht | Ht]; [now apply IH|].
      apply list_elem_of_singleton in Ht as ->. right. eauto.
    + apply list_elem_of_singleton in Ht as ->. now left.
Qed.

(** The pattern of a key matches only at the text of an assignment. *)
Lemma key_pattern_fails (key s : string) (k : Re.regex) :
  assigned_here f key s = false ->
  Re.match_here
    (Re.Seq (Re.chars f key)
       (Re.Seq (Re.Star Re.space) (Re.Seq (Re.Chr (f "="%char)) k))) s = None.
Proof.
  unfold assigned_here, Re.match_here. intros H.
  rewrite run_Seq, run_chars_heads.
  destruct (heads f key s) as [rest|]; [|reflexivity].
  rewrite flat_map_one, run_Seq, run_Star, flat_map_nil; [reflexivity|].
  intros st Hst. apply list_elem_of_In, in_map_iff in Hst as [t [<- Ht]].
  apply list_elem_of_In, star_greedy_space_cases in Ht.
  rewrite run_Seq. destruct t as [|x t]; [reflexivity|].
  rewrite run_Chr. destruct (f "="%char x) eqn:Hx; [|reflexivity].
  exfalso. apply f_equals in Hx as ->.
  destruct Ht as [Ht | [c [t' [[= <- <-] Hc]]]].
  - rewrite <- Ht in H. discriminate.
  - discriminate.
Qed.

Lemma stop_cons (c : ascii) (key : string) (d : ascii) :
  stop f (String c key) d = true -> f c d = false /\ stop f key d = true.
Proof.
  unfold stop. cbn [Str.all_chars]. intros H.
  apply andb_prop in H as [Hc Hk]. now apply negb_true_iff in Hc.
Qed.

(** A key does not end where the text does. *)
Lemma heads_end (key a : string) :
  (String.length a < String.length key)%nat -> heads f key a = None.
Proof.
  revert a. induction key as [|c key IH]; intros a Hlen; [simpl in Hlen; lia|].
  destruct a as [|x a]; [reflexivity|]. cbn [heads].
  destruct (f c x); [|reflexivity]. apply IH. simpl in Hlen. lia.
Qed.

(** A key does not run over a character that none of its own matches. *)
Lemma heads_stop (key a r : string) (d : ascii) :
  (String.length a < String.length key)%nat -> stop f key d = true ->
  heads f key (a ++ String d r) = None.
Proof.
  revert a. induction key as [|c key IH]; intros a Hlen Hd; [simpl in Hlen; lia|].
  apply stop_cons in Hd as [Hc Hd].
  destruct a as [|x a].
  - change ("" ++ String d r) with (String d r). cbn [heads]. now rewrite Hc.
  - rewrite sapp_cons. cbn [heads]. destruct (f c x); [|reflexivity].
    apply IH; [simpl in Hlen; lia | exact Hd].
Qed.

Lemma heads_first_stop (key r : string) (d : ascii) :
  key <> "" -> stop f key d = true -> heads f key (String d r) = None.
Proof.
  intros Hne Hd. apply (heads_stop key "" r d); [|exact Hd].
  destruct key; [congruence | simpl; lia].
Qed.

Lemma heads_mismatch (key u r : string) :
  mismatch f key u = true -> heads f key (u ++ r) = None.
Proof.
  revert u. induction key as [|c key IH]; intros u H; [discriminate|].
  destruct u as [|x u]; [discriminate|].
  rewrite sapp_cons. cbn [heads mismatch] in *.
  destruct (f c x); [|reflexivity]. apply IH. exact H.
Qed.

(** Inside another key. *)
Lemma heads_in_key (key other u r : string) (d : ascii) :
  apart f key other = true -> stop f key d = true -> u ∈ tails other ->
  heads f key (u ++ String d r) = None.
Proof.
  unfold apart. intros Hap Hd Hu.
  rewrite forallb_forall in Hap. apply list_elem_of_In, Hap in Hu.
  apply orb_prop in Hu as [Hu | Hu].
  - now apply heads_mismatch.
  - apply heads_stop; [|exact Hd]. now apply Nat.ltb_lt.
Qed.

Lemma assigned_here_none (key s : string) :
  heads f key s = None -> assigned_here f key s = false.
Proof. unfold assigned_here. now intros ->. Qed.

(** Inside a run of characters that the key does not hold. *)
Lemma assigned_in_stops (key a r u : string) :
  key <> "" ->
  Str.all_chars (stop f key) a = true -> u ∈ tails a ->
  assigned_here f key (u ++ r) = false.
Proof.
  intros Hne Ha Hu. apply assigned_here_none.
  pose proof (all_chars_tail _ _ _ Ha Hu) as Hu'.
  destruct u as [|d u]; [exfalso; exact (tails_nonempty _ _ Hu eq_refl)|].
  simpl in Hu'. apply andb_prop in Hu' as [Hd _].
  rewrite sapp_cons. now apply heads_first_stop.
Qed.

Lemma lstrip_app (u r : string) :
  Str.lstrip (u ++ r) =
  match Str.lstrip u with
  | "" => Str.lstrip r
  | x => x ++ r
  end.
Proof.
  induction u as [|c u IH]; [reflexivity|].
  rewrite sapp_cons. cbn [Str.lstrip]. destruct (Str.isspace c); [exact IH|].
  reflexivity.
Qed.

Lemma follows_tail (c : ascii) (key r : string) :
  follows f (String c key) r -> follows f key r.
Proof.
  intros [[-> | [d [r' [-> Hd]]]] Heq]; (split; [|exact Heq]).
  - now left.
  - right. exists d, r'. split; [reflexivity|]. now apply stop_cons in Hd.
Qed.

Lemma assigned_here_app (key u r : string) :
  follows f key r ->
  assigned_here f key u = false -> assigned_here f key (u ++ r) = false.
Proof.
  unfold assigned_here. revert u.
  induction key as [|c key IH]; intros u Hr Hu.
  - cbn [heads] in *. rewrite lstrip_app.
    destruct (Str.lstrip u) as [|x l]; [apply Hr|].
    rewrite sapp_cons. exact Hu.
  - destruct u as [|x u].
    + change ("" ++ r) with r.
      destruct Hr as [[-> | [d [r' [-> Hd]]]] _]; [reflexivity|].
      cbn [heads]. apply stop_cons in Hd as [-> _]. reflexivity.
    + rewrite sapp_cons. cbn [heads] in *. destruct (f c x); [|reflexivity].
      apply IH; [now apply follows_tail in Hr | exact Hu].
Qed.

Lemma assigned_tails (key s u : string) :
  assigned f key s = false -> u ∈ tails s -> assigned_here f key u = false.
Proof.
  induction s as [|c s IH]; intros Hs Hu; [inversion Hu|].
  cbn [assigned] in Hs. apply orb_false_elim in Hs as [Hhere Hs].
  simpl in Hu. apply elem_of_cons in Hu as [-> | Hu]; [exact Hhere | auto].
Qed.

(** Inside a value that holds no assignment to the key. *)
Lemma assigned_in_text (key text r u : string) :
  follows f key r ->
  assigned f key text = false -> u ∈ tails text ->
  assigned_here f key (u ++ r) = false.
Proof.
  intros Hr Htext Hu. apply assigned_here_app; [exact Hr|].
  now apply (assigned_tails key text).
Qed.

End Key.

(** *** The five keys *)

Lemma reading_equals (key : string) (x : ascii) :
  reading key "="%char x = true -> x = "="%char.
Proof.
  unfold reading. destruct (String.eqb key "should_read_entire_file").
  - intros H. destruct (Ascii.eqb x "="%char) eqn:E; [now apply Ascii.eqb_eq|].
    rewrite lower_char_equals in H by exact E. discriminate.
  - unfold Re.exactly. intros H. symmetry. now apply Ascii.eqb_eq.
Qed.

Lemma key_in_params (key : string) :
  key ∈ read_file_params ->
  key = "target_file" \/ key = "should_read_entire_file"
  \/ key = "start_line_one_indexed" \/ key = "end_line_one_indexed_inclusive"
  \/ key = "explanation".
Proof.
  unfold read_file_params. rewrite !elem_of_cons, elem_of_nil. tauto.
Qed.

Lemma key_stops (key : string) (d : ascii) :
  key ∈ read_file_params -> between_char d = true ->
  stop (reading key) key d = true.
Proof.
  intros Hkey. apply key_in_params in Hkey.
  destruct Hkey as [->|[->|[->|[->| ->]]]];
    destruct d as [[] [] [] [] [] [] [] []]; vm_compute; congruence.
Qed.

Lemma keys_apart (key other : string) :
  key ∈ read_file_params -> other ∈ read_file_params -> key <> other ->
  apart (reading key) key other = true.
Proof.
  intros Hkey Hother Hne.
  apply key_in_params in Hkey. apply key_in_params in Hother.
  destruct Hkey as [->|[->|[->|[->| ->]]]];
    destruct Hother as [->|[->|[->|[->| ->]]]];
    try congruence; vm_compute; reflexivity.
Qed.

Lemma key_nonempty (key : string) : key ∈ read_file_params -> key <> "".
Proof.
  intros Hkey ->. apply key_in_params in Hkey.
  destruct Hkey as [?|[?|[?|[?|?]]]]; discriminate.
Qed.

Lemma blank_stops (key gap : string) :
  key ∈ read_file_params -> blank gap = true ->
  Str.all_chars (stop (reading key) key) gap = true.
Proof.
  intros Hkey. unfold blank. induction gap as [|c gap IH]; [reflexivity|].
  cbn [Str.all_chars]. intros H. apply andb_prop in H as [Hc Hgap].
  rewrite IH by exact Hgap. rewrite key_stops; [reflexivity | exact Hkey|].
  unfold between_char. now rewrite Hc.
Qed.

(** A gap and the character after it begin with a character from between
    the keys and the values. *)
Lemma gap_head (gap r : string) (d : ascii) :
  blank gap = true -> between_char d = true ->
  exists c r', gap ++ String d r = String c r' /\ between_char c = true.
Proof.
  intros Hgap Hd. destruct gap as [|c gap].
  - exists d, r. now split.
  - exists c, (gap ++ String d r). split; [apply sapp_cons|].
    unfold blank in Hgap. simpl in Hgap. apply andb_prop in Hgap as [Hc _].
    unfold between_char. now rewrite Hc.
Qed.

Lemma lstrip_blank (gap r : string) :
  blank gap = true -> Str.lstrip (gap ++ r) = Str.lstrip r.
Proof.
  unfold blank. induction gap as [|c gap IH]; [reflexivity|].
  cbn [Str.all_chars]. intros H. apply andb_prop in H as [Hc Hgap].
  rewrite sapp_cons. cbn [Str.lstrip]. rewrite Hc. auto.
Qed.

(** After a value that is not the last one comes a comma. *)
Lemma follows_comma (key gap3 r : string) :
  key ∈ read_file_params -> blank gap3 = true ->
  follows (reading key) key (gap3 ++ String "," r).
Proof.
  intros Hkey Hgap. split.
  - right. destruct (gap_head gap3 r "," Hgap eq_refl) as [c [r' [-> Hc]]].
    exists c, r'. split; [reflexivity|]. now apply key_stops.
  - rewrite lstrip_blank by exact Hgap. reflexivity.
Qed.

Lemma in_tails_app (a b u : string) :
  u ∈ tails (a ++ b) -> (exists u', u' ∈ tails a /\ u = u' ++ b) \/ u ∈ tails b.
Proof.
  rewrite tails_app. intros Hu. apply elem_of_app in Hu as [Hu | Hu]; [|now right].
  apply list_elem_of_In, in_map_iff in Hu as [u' [<- Hu']].
  left. exists u'. split; [now apply list_elem_of_In | reflexivity].
Qed.

Section Skip.

Variables (key other text gap1 gap2 gap3 gap4 rest : string).

Hypothesis key_known : key ∈ read_file_params.
Hypothesis other_known : other ∈ read_file_params.
Hypothesis key_other : key <> other.
Hypothesis text_quiet : assigned (reading key) key text = false.
Hypothesis blank1 : blank gap1 = true.
Hypothesis blank2 : blank gap2 = true.
Hypothesis blank3 : blank gap3 = true.
Hypothesis blank4 : blank gap4 = true.

(** Nowhere in the argument of another key, and nowhere in the comma after
    it, stands the text of an assignment to [key]. *)
Lemma assigned_in_argument (u : string) :
  u ∈ tails (other ++ gap1 ++ "=" ++ gap2 ++ text ++ gap3 ++ "," ++ gap4) ->
  assigned_here (reading key) key (u ++ rest) = false.
Proof.
  pose proof (key_nonempty key key_known) as Hne.
  assert (Hone : forall c, between_char c = true ->
                   Str.all_chars (stop (reading key) key) (String c "") = true).
  { intros c Hc. cbn [Str.all_chars]. now rewrite key_stops. }
  intros Hu.
  apply in_tails_app in Hu as [[u' [Hu' ->]] | Hu].
  { apply assigned_here_none.
    destruct (gap_head gap1 (gap2 ++ text ++ gap3 ++ "," ++ gap4 ++ rest) "="
                blank1 eq_refl) as [c [r' [Heq Hc]]].
    replace ((u' ++ gap1 ++ "=" ++ gap2 ++ text ++ gap3 ++ "," ++ gap4) ++ rest)
      with (u' ++ gap1 ++ String "=" (gap2 ++ text ++ gap3 ++ "," ++ gap4 ++ rest))
      by text_eq.
    rewrite Heq.
    apply (heads_in_key _ key other); [now apply keys_apart | | exact Hu'].
    now apply key_stops. }
  apply in_tails_app in Hu as [[u' [Hu' ->]] | Hu].
  { rewrite sapp_assoc.
    apply (assigned_in_stops _ key gap1); [exact Hne | | exact Hu'].
    now apply blank_stops. }
  apply in_tails_app in Hu as [[u' [Hu' ->]] | Hu].
  { rewrite sapp_assoc.
    apply (assigned_in_stops _ key "="); [exact Hne | | exact Hu'].
    now apply Hone. }
  apply in_tails_app in Hu as [[u' [Hu' ->]] | Hu].
  { rewrite sapp_assoc.
    apply (assigned_in_stops _ key gap2); [exact Hne | | exact Hu'].
    now apply blank_stops. }
  apply in_tails_app in Hu as [[u' [Hu' ->]] | Hu].
  { replace ((u' ++ gap3 ++ "," ++ gap4) ++ rest)
      with (u' ++ gap3 ++ String "," (gap4 ++ rest)) by text_eq.
    apply (assigned_in_text _ key text); [|exact text_quiet | exact Hu'].
    now apply follows_comma. }
  apply in_tails_app in Hu as [[u' [Hu' ->]] | Hu].
  { rewrite sapp_assoc.
    apply (assigned_in_stops _ key gap3); [exact Hne | | exact Hu'].
    now apply blank_stops. }
  apply in_tails_app in Hu as [[u' [Hu' ->]] | Hu].
  { rewrite sapp_assoc.
    apply (assigned_in_stops _ key ","); [exact Hne | | exact Hu'].
    now apply Hone. }
  apply (assigned_in_stops _ key gap4); [exact Hne | | exact Hu].
  now apply blank_stops.
Qed.

End Skip.

(** *** The search for one key *)

Lemma after_value_head (r : string) :
  after_value r ->
  match r with
  | String d _ => between_char d = true
  | "" => True
  end.
Proof.
  intros [Hr | [gap [r' [Hgap ->]]]].
  - destruct r as [|d r]; [exact I|]. unfold blank in Hr. simpl in Hr.
    apply andb_prop in Hr as [Hd _]. unfold between_char. now rewrite Hd.
  - destruct (gap_head gap r' "," Hgap eq_refl) as [c [r'' [-> Hc]]]. exact Hc.
Qed.

Section Search.

Variables (key : string) (k : Re.regex) (text value : string).

Hypothesis key_known : key ∈ read_file_params.

Let pattern : Re.regex :=
  Re.Seq (Re.chars (reading key) key)
    (Re.Seq (Re.Star Re.space) (Re.Seq (Re.Chr (reading key "="%char)) k)).

(** The pattern reads the value where the argument of the key stands. *)
Hypothesis reads :
  forall gap1 gap2 r,
    blank gap1 = true -> blank gap2 = true -> after_value r ->
    hd_error (Re.run pattern ([], key ++ gap1 ++ "=" ++ gap2 ++ text ++ r))
    = Some ([value], r).

Lemma pattern_fails (s : string) :
  assigned_here (reading key) key s = false -> Re.match_here pattern s = None.
Proof. apply key_pattern_fails, reading_equals. Qed.

Lemma search_arguments (items : list (string * string)) (body : string) :
  arguments items body ->
  NoDup (List.map fst items) ->
  Forall (fun item => fst item ∈ read_file_params) items ->
  unambiguous items = true ->
  (key, text) ∈ items ->
  forall trail, blank trail = true ->
  search_group pattern (body ++ trail) = Some value.
Proof.
  induction 1 as [key0 text0 gap1 gap2 H1 H2
                 |key0 text0 gap1 gap2 gap3 gap4 items rest H1 H2 H3 H4 Hrest IH];
    intros Hdup Hkeys Hunamb Hin trail Htrail.
  - apply list_elem_of_singleton in Hin. injection Hin as <- <-.
    replace ((key ++ gap1 ++ "=" ++ gap2 ++ text) ++ trail)
      with (key ++ gap1 ++ "=" ++ gap2 ++ text ++ trail) by text_eq.
    eapply search_group_here, reads; try assumption. now left.
  - apply elem_of_cons in Hin as [Hin | Hin].
    + injection Hin as <- <-.
      replace ((key ++ gap1 ++ "=" ++ gap2 ++ text ++ gap3 ++ "," ++ gap4 ++ rest)
               ++ trail)
        with (key ++ gap1 ++ "=" ++ gap2 ++ text
              ++ (gap3 ++ String "," (gap4 ++ rest ++ trail))) by text_eq.
      eapply search_group_here, reads; try assumption. right. eauto.
    + cbn [List.map] in Hdup. apply NoDup_cons in Hdup as [Hnew Hdup].
      apply Forall_cons in Hkeys as [Hkey0 Hkeys]. cbn [fst] in *.
      cbn [unambiguous] in Hunamb. apply andb_prop in Hunamb as [Hquiet Hunamb].
      rewrite forallb_forall in Hquiet.
      apply list_elem_of_In in Hin. pose proof (Hquiet _ Hin) as Hq.
      cbn [fst snd] in Hq. apply negb_true_iff in Hq.
      assert (Hne : key <> key0).
      { intros ->. apply Hnew. apply list_elem_of_In, in_map_iff.
        exists (key0, text). now split. }
      replace ((key0 ++ gap1 ++ "=" ++ gap2 ++ text0 ++ gap3 ++ "," ++ gap4 ++ rest)
               ++ trail)
        with ((key0 ++ gap1 ++ "=" ++ gap2 ++ text0 ++ gap3 ++ "," ++ gap4)
              ++ (rest ++ trail)) by text_eq.
      rewrite search_group_skip.
      * apply IH; try assumption. now apply list_elem_of_In.
      * intros u Hu. apply pattern_fails.
        now apply (assigned_in_argument key key0 text0 gap1 gap2 gap3 gap4).
Qed.

(** The same with white space before the first argument. *)
Lemma search_args (items : list (string * string)) (lead body trail : string) :
  arguments items body ->
  NoDup (List.map fst items) ->
  Forall (fun item => fst item ∈ read_file_params) items ->
  unambiguous items = true ->
  (key, text) ∈ items ->
  blank lead = true -> blank trail = true ->
  search_group pattern (lead ++ body ++ trail) = Some value.
Proof.
  intros Hargs Hdup Hkeys Hunamb Hin Hlead Htrail.
  rewrite search_group_skip; [now apply (search_arguments items)|].
  intros u Hu. apply pattern_fails.
  apply (assigned_in_stops _ key lead);
    [now apply key_nonempty | now apply blank_stops | exact Hu].
Qed.

End Search.

(** *** The value read at the argument of a key *)

Lemma blank_spaces (gap : string) :
  blank gap = true -> Str.all_chars Re.space gap = true.
Proof. intros H. exact H. Qed.

Lemma quote_not_space (q : ascii) : Re.quote q = true -> Re.space q = false.
Proof. destruct q as [[] [] [] [] [] [] [] []]; vm_compute; congruence. Qed.

Lemma quote_not_plain (q : ascii) : Re.quote q = true -> Re.not_quote q = false.
Proof. unfold Re.not_quote. now intros ->. Qed.

(** A key, the equals sign and the white space around it. *)
Lemma hd_run_key (f : ascii -> ascii -> bool) (key gap1 gap2 r : string)
    (k : Re.regex) (st : Re.state) :
  (forall c, f c c = true) ->
  blank gap1 = true -> blank gap2 = true ->
  match r with String d _ => Re.space d = false | "" => True end ->
  hd_error (Re.run k ([], r)) = Some st ->
  hd_error
    (Re.run
       (Re.Seq (Re.chars f key)
          (Re.Seq (Re.Star Re.space)
             (Re.Seq (Re.Chr (f "="%char)) (Re.Seq (Re.Star Re.space) k))))
       ([], key ++ gap1 ++ "=" ++ gap2 ++ r))
  = Some st.
Proof.
  intros Hf H1 H2 Hr Hk.
  eapply hd_run_Seq; [now apply hd_run_chars|].
  eapply hd_run_Seq; [apply hd_run_Star; [exact H1 | reflexivity]|].
  eapply hd_run_Seq; [apply hd_run_Chr_app, Hf|].
  eapply hd_run_Seq; [apply hd_run_Star; [exact H2 | exact Hr]|].
  exact Hk.
Qed.

Lemma reading_refl (key : string) (c : ascii) : reading key c c = true.
Proof.
  unfold reading. destruct (String.eqb key "should_read_entire_file");
    [apply is_nocase_refl | apply Ascii.eqb_refl].
Qed.

(** A string between quote characters. *)
Lemma quoted_value_reads (key v text gap1 gap2 r : string) :
  quoted v text -> v <> "" -> Str.all_chars Re.not_quote v = true ->
  blank gap1 = true -> blank gap2 = true ->
  hd_error
    (Re.run (quoted_pattern key) ([], key ++ gap1 ++ "=" ++ gap2 ++ text ++ r))
  = Some ([v], r).
Proof.
  intros [q [q' [Hq [Hq' ->]]]] Hne Hall H1 H2.
  destruct v as [|c v]; [congruence|].
  rewrite quoted_pattern_shape.
  replace (String q (String c v ++ String q' "") ++ r)
    with (String q (String c v ++ String q' r))
    by (rewrite !sapp_cons, sapp_assoc; reflexivity).
  apply hd_run_key; try assumption.
  - intros x. apply Ascii.eqb_refl.
  - now apply quote_not_space.
  - eapply hd_run_Seq; [now apply hd_run_Chr|].
    eapply hd_run_Seq.
    + apply (hd_run_Group (Re.plus Re.not_quote) (String c v) _ [] []).
      apply hd_run_plus; [exact Hall | now apply quote_not_plain].
    + now apply hd_run_Chr.
Qed.

(** [int] of a string of decimals. *)
Lemma int_digits_bounds (s : string) : forall acc n,
  (0 <= acc)%Z -> Str.int_digits acc s = Some n ->
  Str.all_chars Str.isdecimal s = true /\
  (acc * 10 ^ Str.len s <= n < (acc + 1) * 10 ^ Str.len s)%Z.
Proof.
  unfold Str.len. induction s as [|c s IH]; intros acc n Hacc H.
  - injection H as <-. split; [reflexivity|]. simpl. lia.
  - cbn [Str.int_digits] in H. destruct (Str.isdecimal c) eqn:Hc; [|discriminate].
    apply IH in H as [Hall Hn]; [|lia].
    split; [cbn [Str.all_chars]; now rewrite Hc, Hall|].
    cbn [String.length]. rewrite Nat2Z.inj_succ, Z.pow_succ_r by lia.
    assert (Hd : (0 <= Z.of_nat (Str.code c - 48) <= 9)%Z).
    { unfold Str.isdecimal, Str.between in Hc.
      apply andb_prop in Hc as [Hlo Hhi].
      apply Nat.leb_le in Hlo, Hhi. lia. }
    set (p := (10 ^ Z.of_nat (String.length s))%Z) in *.
    assert (0 < p)%Z by (apply Z.pow_pos_nonneg; lia).
    nia.
Qed.

Lemma to_int_facts (text : string) (n : Z) :
  Str.to_int text = Some n ->
  text <> "" /\ Str.all_chars Str.isdecimal text = true /\
  (0 <= n < Str.int_limit)%Z.
Proof.
  unfold Str.to_int. destruct text as [|c text]; [discriminate|].
  destruct (Z.ltb_spec Str.max_str_digits (Str.len (String c text)));
    [discriminate|].
  intros Hn. apply int_digits_bounds in Hn as [Hall Hn]; [|lia].
  split; [discriminate|]. split; [exact Hall|].
  rewrite int_limit_pow. split; [lia|].
  eapply Z.lt_le_trans; [apply Hn|]. rewrite Z.mul_1_l.
  apply Z.pow_le_mono_r; [lia|]. exact H.
Qed.

Lemma between_not_decimal (d : ascii) :
  between_char d = true -> Str.isdecimal d = false.
Proof. destruct d as [[] [] [] [] [] [] [] []]; vm_compute; congruence. Qed.

(** A number, up to the comma or to the end. *)
Lemma number_value_reads (key text gap1 gap2 r : string) (n : Z) :
  Str.to_int text = Some n ->
  blank gap1 = true -> blank gap2 = true -> after_value r ->
  hd_error
    (Re.run (number_pattern key) ([], key ++ gap1 ++ "=" ++ gap2 ++ text ++ r))
  = Some ([text], r).
Proof.
  intros Hn H1 H2 Hr. destruct (to_int_facts _ _ Hn) as [Hne [Hall _]].
  destruct text as [|c v]; [congruence|].
  rewrite number_pattern_shape.
  apply hd_run_key; try assumption.
  - intros x. apply Ascii.eqb_refl.
  - rewrite sapp_cons. apply decimal_not_space.
    simpl in Hall. now apply andb_prop in Hall as [Hc _].
  - apply (hd_run_Group (Re.plus Re.digit) (String c v) _ [] []).
    apply hd_run_plus; [exact Hall|].
    apply after_value_head in Hr. destruct r as [|d r]; [exact I|].
    now apply between_not_decimal.
Qed.

Lemma lower_char_not_space (x : ascii) :
  Re.space x = true -> Re.space (Str.lower_char x) = true.
Proof. destruct x as [[] [] [] [] [] [] [] []]; vm_compute; congruence. Qed.

Lemma run_chars_lower (key text r : string) (g : list string) :
  Str.lower key = key -> Str.lower text = key ->
  Re.run (Re.chars Re.is_nocase key) (g, text ++ r) = [(g, r)].
Proof.
  intros Hkey Htext. rewrite run_chars_heads.
  assert (H : heads Re.is_nocase key (text ++ r) = Some r); [|now rewrite H].
  revert text Htext Hkey. induction key as [|c key IH]; intros text Htext Hkey.
  - destruct text; [reflexivity | discriminate].
  - destruct text as [|x text]; [discriminate|].
    cbn [Str.lower] in *. injection Htext as Hx Htext. injection Hkey as Hc Hkey.
    rewrite sapp_cons. cbn [heads]. unfold Re.is_nocase at 1.
    rewrite Hx, Hc, Ascii.eqb_refl. now apply IH.
Qed.

(** The boolean, in any case. *)
Lemma entire_value_reads (entire : bool) (text gap1 gap2 r : string) :
  Str.lower text = bool_text entire ->
  blank gap1 = true -> blank gap2 = true ->
  hd_error
    (Re.run entire_file_pattern
       ([], "should_read_entire_file" ++ gap1 ++ "=" ++ gap2 ++ text ++ r))
  = Some ([text], r).
Proof.
  intros Htext H1 H2. rewrite entire_file_pattern_shape.
  apply hd_run_key; try assumption.
  - apply is_nocase_refl.
  - destruct text as [|x text]; [destruct entire; discriminate|].
    rewrite sapp_cons. destruct (Re.space x) eqn:Hx; [|reflexivity].
    apply lower_char_not_space in Hx. cbn [Str.lower] in Htext.
    destruct entire; injection Htext as Hc _; rewrite Hc in Hx; discriminate.
  - apply (hd_run_Group _ text _ [] []). destruct entire; cbn [bool_text] in Htext.
    + apply hd_run_Alt_l. unfold Re.lit_nocase.
      now rewrite run_chars_lower.
    + apply hd_run_Alt_r; [|unfold Re.lit_nocase; now rewrite run_chars_lower].
      destruct text as [|x text]; [discriminate|].
      rewrite sapp_cons. apply (run_chars_first Re.is_nocase "t" x "rue").
      cbn [Str.lower] in Htext. injection Htext as Hx _.
      unfold Re.is_nocase. rewrite Hx. reflexivity.
Qed.

(** *** The five values of a call *)

Lemma read_file_params_NoDup : NoDup read_file_params.
Proof.
  unfold read_file_params.
  repeat (apply NoDup_cons; split;
          [rewrite ?elem_of_cons, elem_of_nil; intuition discriminate|]).
  apply NoDup_nil. exact I.
Qed.

Lemma items_keys (items : list (string * string)) :
  Permutation (List.map fst items) read_file_params ->
  NoDup (List.map fst items) /\
  Forall (fun item => fst item ∈ read_file_params) items /\
  forall key, key ∈ read_file_params -> exists text, (key, text) ∈ items.
Proof.
  intros Hperm. split; [|split].
  - rewrite Hperm. apply read_file_params_NoDup.
  - apply Forall_forall. intros item Hitem. rewrite <- Hperm.
    apply list_elem_of_In, in_map, list_elem_of_In, Hitem.
  - intros key Hkey. rewrite <- Hperm in Hkey.
    apply list_elem_of_In, in_map_iff in Hkey as [[k text] [Hk Hin]].
    simpl in Hk. subst k. exists text. now apply list_elem_of_In.
Qed.

Lemma quoted_plain_reads (key v text gap1 gap2 r : string) :
  plain v = true -> quoted v text ->
  blank gap1 = true -> blank gap2 = true ->
  hd_error
    (Re.run (quoted_pattern key) ([], key ++ gap1 ++ "=" ++ gap2 ++ text ++ r))
  = Some ([v], r).
Proof.
  intros Hv Hq. destruct (plain_facts _ Hv) as [Hne [Hall _]].
  now apply quoted_value_reads.
Qed.

Section Call.

Variables (target : string) (entire : bool) (s e : Z) (why args : string).

Hypothesis target_plain : plain_target target = true.
Hypothesis why_plain : plain why = true.
Hypothesis args_written : read_file_args target entire s e why args.

Ltac open_args key :=
  let items := fresh "items" in
  let text := fresh "text" in
  let Hin := fresh "Hin" in
  destruct args_written
    as (items & lead & body & trail & -> & Hlead & Htrail & Hargs & Hperm
        & Hwritten & Hunamb);
  destruct (items_keys items Hperm) as (Hdup & Hkeys & Hex);
  destruct (Hex key) as [text Hin]; [key_in|];
  pose proof (proj1 (Forall_forall _ _) Hwritten _ Hin) as Hw;
  cbn [fst snd] in Hw; inversion Hw; subst.

Lemma search_target :
  search_group (quoted_pattern "target_file") args = Some target.
Proof.
  open_args "target_file".
  destruct (plain_target_facts _ target_plain) as [Hplain _].
  refine (search_args "target_file" _ text target _ _ items lead body trail
            Hargs Hdup Hkeys Hunamb Hin Hlead Htrail); [key_in|].
  intros gap1 gap2 r H1 H2 _.
  now apply (quoted_plain_reads "target_file").
Qed.

Lemma search_entire :
  exists text,
    search_group entire_file_pattern args = Some text /\
    Str.lower text = bool_text entire.
Proof.
  open_args "should_read_entire_file". exists text. split; [|assumption].
  refine (search_args "should_read_entire_file" _ text text _ _ items lead body
            trail Hargs Hdup Hkeys Hunamb Hin Hlead Htrail); [key_in|].
  intros gap1 gap2 r H1 H2 _.
  now apply entire_value_reads with (entire := entire).
Qed.

Lemma search_first :
  exists text,
    search_group (number_pattern "start_line_one_indexed") args = Some text /\
    Str.to_int text = Some s.
Proof.
  open_args "start_line_one_indexed". exists text. split; [|assumption].
  refine (search_args "start_line_one_indexed" _ text text _ _ items lead body
            trail Hargs Hdup Hkeys Hunamb Hin Hlead Htrail); [key_in|].
  intros gap1 gap2 r H1 H2 Hr.
  now apply (number_value_reads "start_line_one_indexed") with (n := s).
Qed.

Lemma search_last :
  exists text,
    search_group (number_pattern "end_line_one_indexed_inclusive") args
    = Some text /\
    Str.to_int text = Some e.
Proof.
  open_args "end_line_one_indexed_inclusive". exists text.
  split; [|assumption].
  refine (search_args "end_line_one_indexed_inclusive" _ text text _ _ items
            lead body trail Hargs Hdup Hkeys Hunamb Hin Hlead Htrail);
    [key_in|].
  intros gap1 gap2 r H1 H2 Hr.
  now apply (number_value_reads "end_line_one_indexed_inclusive") with (n := e).
Qed.

Lemma search_why :
  search_group (quoted_pattern "explanation") args = Some why.
Proof.
  open_args "explanation".
  refine (search_args "explanation" _ text why _ _ items lead body trail
            Hargs Hdup Hkeys Hunamb Hin Hlead Htrail); [key_in|].
  intros gap1 gap2 r H1 H2 _.
  now apply (quoted_plain_reads "explanation").
Qed.

End Call.

(** *** One round of the loop on a call *)

Lemma read_file_kwargs_lookup (target : string) (entire : bool) (s e : Z)
    (why : string) :
  let kwargs := read_file_kwargs target entire s e why in
  kwargs !! "target_file" = Some (VStr target) /\
  kwargs !! "should_read_entire_file" = Some (VBool entire) /\
  kwargs !! "start_line_one_indexed" = Some (VInt s) /\
  kwargs !! "end_line_one_indexed_inclusive" = Some (VInt e) /\
  kwargs !! "explanation" = Some (VStr why).
Proof.
  unfold read_file_kwargs. repeat split;
    repeat (rewrite lookup_insert_ne by discriminate);
    apply lookup_insert_eq.
Qed.

Lemma text_of_int (text : string) (n : Z) :
  Str.to_int text = Some n -> text_of (VInt n) = Some (Str.numeral n).
Proof.
  intros H. destruct (to_int_facts _ _ H) as [_ [_ Hn]].
  unfold text_of, format. rewrite str_int_small by lia. reflexivity.
Qed.

Lemma lower_true (text : string) (entire : bool) :
  Str.lower text = bool_text entire ->
  String.eqb (Str.lower text) "true" = entire.
Proof. intros ->. now destruct entire. Qed.

Lemma parse_match_call (target : string) (entire : bool) (s e : Z)
    (why args : string) (st : loop_state) :
  plain_target target = true -> plain why = true ->
  read_file_args target entire s e why args ->
  parse_match st ["read_file"; args] =
  add_call st
    ("read_file" ++ ":" ++ target ++ ":" ++ Str.numeral s ++ ":" ++ Str.numeral e)
    ("read_file", read_file_kwargs target entire s e why).
Proof.
  intros Ht Hw Hargs. unfold parse_match.
  cbn [group nth Nat.pred].
  change (String.eqb "read_file" "read_file") with true. cbv iota.
  rewrite (search_target target entire s e why args Ht Hargs).
  destruct (search_entire target entire s e why args Hargs) as [b [-> Hb]].
  destruct (search_first target entire s e why args Hargs) as [first [-> Hs]].
  destruct (search_last target entire s e why args Hargs) as [last [-> He]].
  rewrite Hs, He.
  rewrite (search_why target entire s e why args Hw Hargs).
  destruct (plain_target_facts _ Ht) as [_ ->].
  rewrite (lower_true _ _ Hb).
  change (<["explanation":=VStr why]> _)
    with (read_file_kwargs target entire s e why).
  destruct (read_file_kwargs_lookup target entire s e why)
    as [H1 [H2 [H3 [H4 H5]]]].
  unfold get. cbn [forallb]. rewrite H1, H2, H3, H4, H5.
  cbn [default from_option]. unfold id.
  rewrite (text_of_int _ _ Hs), (text_of_int _ _ He).
  reflexivity.
Qed.

(** *** The pattern of a call *)

Lemma tool_pattern_shape :
  tool_pattern =
  Re.Seq (Re.lit "TOOL:")
    (Re.Seq (Re.Group (Re.plus Re.word))
       (Re.Seq (Re.lit "(")
          (Re.Seq (Re.Group (Re.LazyStar Re.any)) (Re.lit ")")))).
Proof. reflexivity. Qed.

Lemma first_char_no_start (p : string) (c x : ascii) (s : string) :
  Ascii.eqb c x = false -> Str.startswith (String c p) (String x s) = false.
Proof. intros H. simpl. now rewrite H. Qed.

Lemma no_paren_start (s : string) :
  Str.has_char ")"%char s = false -> Str.startswith ")" s = false.
Proof.
  destruct s as [|c s]; [reflexivity|]. cbn [Str.has_char]. intros H.
  apply orb_false_elim in H as [Hc _].
  apply first_char_no_start. now rewrite Ascii.eqb_sym.
Qed.

Lemma has_char_tail (q : ascii) (s u : string) :
  Str.has_char q s = false -> u ∈ tails s -> Str.has_char q u = false.
Proof.
  induction s as [|c s IH]; intros Hs Hu; [inversion Hu|].
  simpl in Hu. apply elem_of_cons in Hu as [-> | Hu]; [exact Hs|].
  simpl in Hs. apply orb_false_elim in Hs as [_ Hs]. auto.
Qed.

Lemma run_Seq_nil (r1 r2 : Re.regex) (st : Re.state) :
  (forall st1, st1 ∈ Re.run r1 st -> Re.run r2 st1 = []) ->
  Re.run (Re.Seq r1 r2) st = [].
Proof. intros H. rewrite run_Seq. now apply flat_map_nil. Qed.

Lemma run_keeps_no_char (q : ascii) (r : Re.regex) (st st1 : Re.state) :
  Str.has_char q (snd st) = false -> st1 ∈ Re.run r st ->
  Str.has_char q (snd st1) = false.
Proof.
  intros H Hin. destruct (run_reads r st st1 Hin) as [[m Hm] _].
  rewrite Hm, has_char_app in H. now apply orb_false_elim in H as [_ H].
Qed.

(** Without a closing parenthesis there is no call. *)
Lemma tool_pattern_needs_paren (s : string) :
  Str.has_char ")"%char s = false -> Re.match_here tool_pattern s = None.
Proof.
  intros H. unfold Re.match_here. rewrite tool_pattern_shape.
  rewrite run_Seq_nil; [reflexivity|]. intros st1 H1.
  pose proof (run_keeps_no_char ")" _ ([], s) _ H H1) as N1.
  apply run_Seq_nil. intros st2 H2.
  pose proof (run_keeps_no_char _ _ _ _ N1 H2) as N2.
  apply run_Seq_nil. intros st3 H3.
  pose proof (run_keeps_no_char _ _ _ _ N2 H3) as N3.
  apply run_Seq_nil. intros st4 H4.
  pose proof (run_keeps_no_char _ _ _ _ N3 H4) as N4.
  destruct st4 as [g4 s4]. apply run_lit_fail. now apply no_paren_start.
Qed.

Lemma tool_pattern_needs_marker (s : string) :
  Str.startswith "TOOL:" s = false -> Re.match_here tool_pattern s = None.
Proof. intros H. rewrite tool_pattern_shape. now apply match_here_lit_fail. Qed.

(** The call as the pattern reads it. *)
Lemma tool_pattern_here (args rest : string) :
  Str.has_char ")"%char args = false ->
  Re.match_here tool_pattern
    ("TOOL:" ++ "read_file" ++ "(" ++ args ++ ")" ++ rest) =
  Some (["read_file"; args], rest).
Proof.
  intros Hargs. rewrite match_here_hd, tool_pattern_shape.
  eapply hd_run_Seq; [apply hd_run_lit|].
  eapply hd_run_Seq;
    [apply (hd_run_Group (Re.plus Re.word) "read_file" _ [] []);
     apply (hd_run_plus Re.word "r" "ead_file"); reflexivity|].
  eapply hd_run_Seq; [apply hd_run_lit|].
  apply hd_run_lazy_group.
  - intros u Hu g'. apply run_lit_fail.
    destruct (tails_cons _ _ Hu) as [c [u' ->]].
    pose proof (has_char_tail _ _ _ Hargs Hu) as Hc. cbn [Str.has_char] in Hc.
    apply orb_false_elim in Hc as [Hc _].
    rewrite sapp_cons. apply first_char_no_start. now rewrite Ascii.eqb_sym.
  - apply hd_run_lit.
Qed.

(** *** The text of a call holds one marker and one closing parenthesis *)

Lemma decimal_no_char (q : ascii) (s : string) :
  Str.isdecimal q = false ->
  Str.all_chars Str.isdecimal s = true -> Str.has_char q s = false.
Proof.
  intros Hq. induction s as [|c s IH]; [reflexivity|].
  cbn [Str.all_chars Str.has_char]. intros H.
  apply andb_prop in H as [Hc Hs]. rewrite (IH Hs), orb_false_r.
  destruct (Ascii.eqb c q) eqn:E; [|reflexivity].
  apply Ascii.eqb_eq in E. congruence.
Qed.

Lemma no_char_no_occurrence (q : ascii) (p s : string) :
  Str.has_char q s = false -> occurs (String q p) s = false.
Proof.
  induction s as [|c s IH]; [reflexivity|].
  cbn [Str.has_char occurs]. intros H.
  apply orb_false_elim in H as [Hc Hs]. rewrite (IH Hs), orb_false_r.
  apply first_char_no_start. now rewrite Ascii.eqb_sym.
Qed.

Lemma occurs_app_char (p a b : string) (d : ascii) :
  Str.has_char d p = false ->
  occurs p a = false ->
  occurs p (String d b) = false ->
  occurs p (a ++ String d b) = false.
Proof.
  intros Hd Ha Hb. induction a as [|c a IH]; [exact Hb|].
  rewrite sapp_cons. cbn [occurs]. rewrite <- sapp_cons.
  rewrite (no_start_before_char p (String c a) (String c a) b d Hd Ha)
    by (simpl; left).
  cbn [occurs] in Ha. apply orb_false_elim in Ha as [_ Ha].
  rewrite (IH Ha). reflexivity.
Qed.

Lemma blank_no_char (d : ascii) (gap : string) :
  Str.isspace d = false -> blank gap = true -> Str.has_char d gap = false.
Proof.
  intros Hd. unfold blank. induction gap as [|c gap IH]; [reflexivity|].
  cbn [Str.all_chars Str.has_char]. intros H.
  apply andb_prop in H as [Hc Hgap]. rewrite (IH Hgap), orb_false_r.
  destruct (Ascii.eqb c d) eqn:E; [|reflexivity].
  apply Ascii.eqb_eq in E. congruence.
Qed.

Lemma lower_has_char (d : ascii) (text : string) :
  (forall c, Ascii.eqb (Str.lower_char c) d = Ascii.eqb c d) ->
  Str.has_char d (Str.lower text) = Str.has_char d text.
Proof.
  intros Hd. induction text as [|c text IH]; [reflexivity|].
  cbn [Str.lower Str.has_char]. now rewrite Hd, IH.
Qed.

Lemma lower_char_paren (c : ascii) :
  Ascii.eqb (Str.lower_char c) ")"%char = Ascii.eqb c ")"%char.
Proof. destruct c as [[] [] [] [] [] [] [] []]; reflexivity. Qed.

Lemma lower_char_colon (c : ascii) :
  Ascii.eqb (Str.lower_char c) ":"%char = Ascii.eqb c ":"%char.
Proof. destruct c as [[] [] [] [] [] [] [] []]; reflexivity. Qed.

Lemma quote_cases (q : ascii) :
  Re.quote q = true -> q = ascii_of_nat 34 \/ q = "'"%char.
Proof.
  destruct q as [[] [] [] [] [] [] [] []]; vm_compute; intros H;
    first [discriminate | now left | now right].
Qed.

Lemma between_cases (d : ascii) :
  between_char d = true ->
  Str.has_char d "TOOL:" = false /\ Ascii.eqb d ")"%char = false.
Proof. destruct d as [[] [] [] [] [] [] [] []]; vm_compute; intros H;
    first [discriminate | now split]. Qed.

(** A character that neither the keys, nor the text between the values,
    nor the boolean and the numbers hold. *)
Lemma written_no_char (d : ascii) (target : string) (entire : bool) (s e : Z)
    (why key text : string) :
  Re.quote d = false -> Str.isdecimal d = false ->
  (forall c, Ascii.eqb (Str.lower_char c) d = Ascii.eqb c d) ->
  Str.has_char d "truefalse" = false ->
  Str.has_char d target = false -> Str.has_char d why = false ->
  written target entire s e why key text ->
  Str.has_char d text = false.
Proof.
  intros Hq Hdec Hlow Hbool Ht Hw Hwr.
  assert (Hquoted : forall v t, Str.has_char d v = false -> quoted v t ->
                                Str.has_char d t = false).
  { intros v t Hv [q [q' [Hq1 [Hq2 ->]]]].
    cbn [Str.has_char]. rewrite has_char_app, Hv. cbn [Str.has_char].
    assert (Hne : forall x, Re.quote x = true -> Ascii.eqb x d = false).
    { intros x Hx. destruct (Ascii.eqb x d) eqn:E; [|reflexivity].
      apply Ascii.eqb_eq in E. congruence. }
    now rewrite (Hne q Hq1), (Hne q' Hq2). }
  assert (Hnum : forall t n, Str.to_int t = Some n -> Str.has_char d t = false).
  { intros t n Hn. destruct (to_int_facts _ _ Hn) as [_ [Hall _]].
    now apply decimal_no_char. }
  destruct Hwr as [t Hquote | t Hlower | t Hn | t Hn | t Hquote]; eauto.
  rewrite <- (lower_has_char d t Hlow), Hlower.
  destruct entire; simpl in *;
    repeat match goal with
           | H : (_ || _) = false |- _ => apply orb_false_elim in H as [? H]
           end;
    repeat (apply orb_false_intro; [assumption|]); reflexivity.
Qed.

Lemma key_no_char (d : ascii) (key : string) :
  (d = ")"%char \/ d = "T"%char \/ d = ":"%char) ->
  key ∈ read_file_params -> Str.has_char d key = false.
Proof.
  intros Hd Hkey.
  destruct (key_in_params key Hkey) as [-> | [-> | [-> | [-> | ->]]]];
    destruct Hd as [-> | [-> | ->]]; reflexivity.
Qed.

Lemma arguments_keys (items : list (string * string)) (body : string)
    (P : string * string -> Prop) :
  arguments items body ->
  forall Q : list (string * string) -> string -> Prop,
    (forall key text gap1 gap2,
        blank gap1 = true -> blank gap2 = true -> P (key, text) ->
        Q [(key, text)] (key ++ gap1 ++ "=" ++ gap2 ++ text)) ->
    (forall key text gap1 gap2 gap3 gap4 items rest,
        blank gap1 = true -> blank gap2 = true ->
        blank gap3 = true -> blank gap4 = true ->
        P (key, text) -> arguments items rest -> Q items rest ->
        Q ((key, text) :: items)
          (key ++ gap1 ++ "=" ++ gap2 ++ text ++ gap3 ++ "," ++ gap4 ++ rest)) ->
    Forall P items -> Q items body.
Proof.
  intros Hargs Q Hlast Hmore.
  induction Hargs as [key text gap1 gap2 H1 H2
                     | key text gap1 gap2 gap3 gap4 items rest H1 H2 H3 H4 Hrest IH];
    intros Hall; inversion Hall; subst; auto.
Qed.

Section CallText.

Variables (target : string) (entire : bool) (s e : Z) (why : string).

Hypothesis target_plain : plain_target target = true.
Hypothesis why_plain : plain why = true.

Let known (item : string * string) : Prop :=
  fst item ∈ read_file_params /\
  written target entire s e why (fst item) (snd item).

Lemma written_no_paren (key text : string) :
  written target entire s e why key text -> Str.has_char ")"%char text = false.
Proof.
  destruct (plain_target_facts _ target_plain) as [Hplain _].
  destruct (plain_facts _ Hplain) as [_ [_ [Ht _]]].
  destruct (plain_facts _ why_plain) as [_ [_ [Hw _]]].
  apply written_no_char; try assumption; try reflexivity.
  apply lower_char_paren.
Qed.

Lemma written_no_marker (key text : string) :
  written target entire s e why key text -> occurs "TOOL:" text = false.
Proof.
  destruct (plain_target_facts _ target_plain) as [Hplain _].
  destruct (plain_facts _ Hplain) as [_ [_ [_ Ht]]].
  destruct (plain_facts _ why_plain) as [_ [_ [_ Hw]]].
  assert (Hquoted : forall v t, occurs "TOOL:" v = false -> quoted v t ->
                                occurs "TOOL:" t = false).
  { intros v t Hv [q [q' [Hq1 [Hq2 ->]]]].
    change (occurs "TOOL:" (String q (v ++ String q' "")))
      with (Str.startswith "TOOL:" (String q (v ++ String q' ""))
            || occurs "TOOL:" (v ++ String q' "")).
    apply orb_false_intro.
    - apply first_char_no_start.
      destruct (quote_cases q Hq1) as [-> | ->]; reflexivity.
    - apply occurs_app_char; [|exact Hv|];
        destruct (quote_cases q' Hq2) as [-> | ->]; reflexivity. }
  assert (Hcolon : forall t, Str.has_char ":"%char t = false ->
                             occurs "TOOL:" t = false).
  { intros t Hno. induction t as [|c t IH]; [reflexivity|].
    cbn [Str.has_char] in Hno. apply orb_false_elim in Hno as [Hc Hno].
    cbn [occurs]. rewrite (IH Hno), orb_false_r.
    destruct (Str.startswith "TOOL:" (String c t)) eqn:E; [|reflexivity].
    apply startswith_inv in E as [r E].
    assert (Hin : Str.has_char ":"%char (String c t) = true)
      by (rewrite E, has_char_app; reflexivity).
    cbn [Str.has_char] in Hin. rewrite Hc, Hno in Hin. discriminate. }
  intros Hwr.
  destruct Hwr as [t Hquote | t Hlower | t Hn | t Hn | t Hquote]; eauto.
  - apply Hcolon. rewrite <- (lower_has_char ":" t lower_char_colon), Hlower.
    now destruct entire.
  - apply Hcolon. destruct (to_int_facts _ _ Hn) as [_ [Hall _]].
    now apply decimal_no_char.
  - apply Hcolon. destruct (to_int_facts _ _ Hn) as [_ [Hall _]].
    now apply decimal_no_char.
Qed.

Lemma arguments_no_paren (items : list (string * string)) (body : string) :
  arguments items body -> Forall known items ->
  Str.has_char ")"%char body = false.
Proof.
  intros Hargs.
  apply (arguments_keys items body known Hargs
           (fun _ body => Str.has_char ")"%char body = false)).
  - intros key text gap1 gap2 H1 H2 [Hkey Hwr]. cbn [fst snd] in *.
    rewrite !has_char_app.
    rewrite (key_no_char ")" key (or_introl eq_refl) Hkey).
    rewrite (written_no_paren key text Hwr).
    rewrite (blank_no_char ")" gap1 eq_refl H1).
    rewrite (blank_no_char ")" gap2 eq_refl H2). reflexivity.
  - intros key text gap1 gap2 gap3 gap4 items' rest H1 H2 H3 H4 [Hkey Hwr] _ IH.
    cbn [fst snd] in *. rewrite !has_char_app, IH.
    rewrite (key_no_char ")" key (or_introl eq_refl) Hkey).
    rewrite (written_no_paren key text Hwr).
    rewrite (blank_no_char ")" gap1 eq_refl H1).
    rewrite (blank_no_char ")" gap2 eq_refl H2).
    rewrite (blank_no_char ")" gap3 eq_refl H3).
    rewrite (blank_no_char ")" gap4 eq_refl H4). reflexivity.
Qed.

Lemma occurs_skip (c : ascii) (p a b : string) :
  Str.has_char c a = false ->
  occurs (String c p) (a ++ b) = occurs (String c p) b.
Proof.
  induction a as [|x a IH]; [reflexivity|].
  cbn [Str.has_char]. intros H. apply orb_false_elim in H as [Hx Ha].
  rewrite sapp_cons. cbn [occurs]. rewrite (IH Ha).
  rewrite first_char_no_start; [reflexivity|]. now rewrite Ascii.eqb_sym.
Qed.

Lemma occurs_glue (p text w : string) :
  occurs p text = false -> occurs p w = false ->
  match w with
  | String d _ => Str.has_char d p = false
  | "" => True
  end ->
  occurs p (text ++ w) = false.
Proof.
  intros Htext Hw Hhead. destruct w as [|d w]; [now rewrite sapp_nil_r|].
  now apply occurs_app_char.
Qed.

Lemma blank_head (gap : string) :
  blank gap = true ->
  match gap with
  | String d _ => Str.has_char d "TOOL:" = false
  | "" => True
  end.
Proof.
  destruct gap as [|d gap]; [easy|]. unfold blank. cbn [Str.all_chars].
  intros H. apply andb_prop in H as [Hd _].
  apply between_cases. unfold between_char. now rewrite Hd.
Qed.

Lemma arguments_no_marker (items : list (string * string)) (body : string) :
  arguments items body -> Forall known items ->
  forall trail, blank trail = true -> occurs "TOOL:" (body ++ trail) = false.
Proof.
  intros Hargs.
  apply (arguments_keys items body known Hargs
           (fun _ body => forall trail, blank trail = true ->
                                        occurs "TOOL:" (body ++ trail) = false)).
  - intros key text gap1 gap2 H1 H2 [Hkey Hwr] trail Htrail. cbn [fst snd] in *.
    replace ((key ++ gap1 ++ "=" ++ gap2 ++ text) ++ trail)
      with ((key ++ gap1 ++ "=" ++ gap2) ++ text ++ trail)
      by (now rewrite !sapp_assoc).
    rewrite occurs_skip.
    2:{ rewrite !has_char_app.
        rewrite (key_no_char "T" key (or_intror (or_introl eq_refl)) Hkey).
        rewrite (blank_no_char "T" gap1 eq_refl H1).
        rewrite (blank_no_char "T" gap2 eq_refl H2). reflexivity. }
    apply occurs_glue; [now apply (written_no_marker key) | |now apply blank_head].
    apply no_char_no_occurrence, blank_no_char; [reflexivity | exact Htrail].
  - intros key text gap1 gap2 gap3 gap4 items' rest H1 H2 H3 H4 [Hkey Hwr] _ IH
           trail Htrail.
    cbn [fst snd] in *.
    replace ((key ++ gap1 ++ "=" ++ gap2 ++ text ++ gap3 ++ "," ++ gap4 ++ rest)
             ++ trail)
      with ((key ++ gap1 ++ "=" ++ gap2)
            ++ text ++ (gap3 ++ String "," gap4) ++ rest ++ trail)
      by (rewrite !sapp_assoc; reflexivity).
    rewrite occurs_skip.
    2:{ rewrite !has_char_app.
        rewrite (key_no_char "T" key (or_intror (or_introl eq_refl)) Hkey).
        rewrite (blank_no_char "T" gap1 eq_refl H1).
        rewrite (blank_no_char "T" gap2 eq_refl H2). reflexivity. }
    apply occurs_glue; [now apply (written_no_marker key) | |].
    + rewrite occurs_skip; [now apply IH|].
      rewrite has_char_app. cbn [Str.has_char].
      rewrite (blank_no_char "T" gap3 eq_refl H3).
      rewrite (blank_no_char "T" gap4 eq_refl H4). reflexivity.
    + rewrite sapp_assoc.
      destruct (gap_head gap3 (gap4 ++ rest ++ trail) "," H3 eq_refl)
        as [c [r' [Heq Hc]]].
      rewrite sapp_cons, Heq. now apply between_cases.
Qed.

Variable args : string.
Hypothesis args_written : read_file_args target entire s e why args.

Lemma args_known :
  exists items lead body trail,
    args = lead ++ body ++ trail /\ blank lead = true /\ blank trail = true /\
    arguments items body /\ Forall known items.
Proof.
  destruct args_written
    as (items & lead & body & trail & -> & Hlead & Htrail & Hargs & Hperm
        & Hwritten & Hunamb).
  destruct (items_keys items Hperm) as (_ & Hkeys & _).
  exists items, lead, body, trail. repeat split; try assumption.
  apply Forall_forall. intros item Hitem. split.
  - exact (proj1 (Forall_forall _ _) Hkeys _ Hitem).
  - exact (proj1 (Forall_forall _ _) Hwritten _ Hitem).
Qed.

Lemma args_no_paren : Str.has_char ")"%char args = false.
Proof.
  destruct args_known
    as (items & lead & body & trail & -> & Hlead & Htrail & Hargs & Hknown).
  rewrite !has_char_app, (arguments_no_paren items body Hargs Hknown).
  rewrite (blank_no_char ")" lead eq_refl Hlead).
  rewrite (blank_no_char ")" trail eq_refl Htrail). reflexivity.
Qed.

Lemma call_no_inner_marker :
  occurs "TOOL:" ("OOL:" ++ "read_file" ++ "(" ++ args) = false.
Proof.
  destruct args_known
    as (items & lead & body & trail & -> & Hlead & Htrail & Hargs & Hknown).
  replace ("OOL:" ++ "read_file" ++ "(" ++ lead ++ body ++ trail)
    with (("OOL:read_file(" ++ lead) ++ body ++ trail)
    by (rewrite !sapp_assoc; reflexivity).
  rewrite occurs_skip; [now apply (arguments_no_marker items)|].
  rewrite has_char_app.
  rewrite (blank_no_char "T" lead eq_refl Hlead). reflexivity.
Qed.

End CallText.

(** *** Where the markers of a text of calls stand *)

Lemma sapp_eq_app (a b c d : string) :
  a ++ b = c ++ d ->
  (exists x, c = a ++ x /\ b = x ++ d) \/
  (exists x, x <> "" /\ a = c ++ x /\ d = x ++ b).
Proof.
  revert c. induction a as [|ca a IH]; intros c H.
  - left. exists c. split; [reflexivity | exact H].
  - destruct c as [|cc c].
    + right. exists (String ca a). repeat split; [discriminate | now symmetry].
    + rewrite !sapp_cons in H. injection H as -> H.
      destruct (IH c H) as [[x [-> ->]] | [x [Hx [-> ->]]]].
      * left. exists x. split; reflexivity.
      * right. exists x. repeat split; assumption.
Qed.

Lemma occurs_suffix (p x t : string) :
  occurs p (x ++ t) = false -> Str.startswith p t = false.
Proof.
  induction x as [|c x IH]; intros H.
  - destruct t; simpl in H; now apply orb_false_elim in H as [H _].
  - rewrite sapp_cons in H. cbn [occurs] in H.
    apply orb_false_elim in H as [_ H]. auto.
Qed.

Lemma occurs_app_l (p a b : string) : occurs p (a ++ b) = false -> occurs p a = false.
Proof.
  induction a as [|c a IH]; intros H.
  - destruct p as [|x p]; [|reflexivity].
    destruct b; simpl in H; discriminate.
  - rewrite sapp_cons in H. cbn [occurs] in *.
    apply orb_false_elim in H as [Hs H]. rewrite (IH H), orb_false_r.
    destruct (Str.startswith p (String c a)) eqn:E; [|reflexivity].
    apply startswith_inv in E as [s' E]. rewrite <- sapp_cons, E in Hs.
    rewrite sapp_assoc, startswith_app in Hs. discriminate.
Qed.

Lemma occurs_app_r (p a b : string) : occurs p (a ++ b) = false -> occurs p b = false.
Proof.
  induction a as [|c a IH]; intros H; [exact H|].
  rewrite sapp_cons in H. cbn [occurs] in H.
  apply orb_false_elim in H as [_ H]. auto.
Qed.

Lemma startswith_more (p s t : string) :
  Str.startswith p s = true -> Str.startswith p (s ++ t) = true.
Proof.
  intros H. apply startswith_inv in H as [s' ->].
  rewrite sapp_assoc. apply startswith_app.
Qed.

Lemma tails_suffix (a z : string) : z <> "" -> z ∈ tails (a ++ z).
Proof.
  intros Hz. induction a as [|c a IH].
  - destruct z as [|c z]; [congruence|]. simpl. left.
  - rewrite sapp_cons. simpl. now right.
Qed.

Lemma substring_tails (s u : string) : u ∈ tails s -> substring u s.
Proof.
  induction s as [|c s IH]; intros Hu; [inversion Hu|].
  simpl in Hu. apply elem_of_cons in Hu as [-> | Hu]; [apply substring_refl|].
  apply substring_cons. auto.
Qed.

Lemma occurs_substring (p b s : string) :
  occurs p s = false -> substring b s -> occurs p b = false.
Proof.
  intros H [u [v ->]]. apply occurs_app_r in H. now apply occurs_app_l in H.
Qed.

Section CallsText.

Variables (target : string) (s e : Z).

Hypothesis target_plain : plain_target target = true.

(** No marker starts inside a call. *)
Lemma call_interior (entire : bool) (why args rest u : string) :
  plain why = true -> read_file_args target entire s e why args ->
  u ∈ tails ("OOL:" ++ "read_file" ++ "(" ++ args ++ ")") ->
  Str.startswith "TOOL:" (u ++ rest) = false.
Proof.
  intros Hw Hargs Hu.
  replace ("OOL:" ++ "read_file" ++ "(" ++ args ++ ")")
    with (("OOL:" ++ "read_file" ++ "(" ++ args) ++ ")") in Hu
    by (now rewrite !sapp_assoc).
  rewrite tails_app in Hu. apply elem_of_app in Hu as [Hu | Hu].
  - apply list_elem_of_In, in_map_iff in Hu as [u' [<- Hu']].
    apply list_elem_of_In in Hu'. rewrite sapp_assoc.
    apply (no_start_before_char "TOOL:" _ u' rest ")" eq_refl
             (call_no_inner_marker target entire s e why target_plain Hw
                args Hargs) Hu').
  - cbn [tails] in Hu. apply list_elem_of_singleton in Hu as ->. reflexivity.
Qed.

(** Every marker of a text of calls opens one of its calls. *)
Lemma marker_opens_call (text : string) (calls : list (bool * string)) :
  calls_text target s e text calls ->
  forall x t,
    text = x ++ t -> Str.startswith "TOOL:" t = true ->
    exists entire why args rest calls',
      plain why = true /\
      read_file_args target entire s e why args /\
      t = read_file_call args ++ rest /\
      calls_text target s e rest calls'.
Proof.
  induction 1
    as [text Hfree | text args entire why rest calls Hfree Hw Hargs Hrest IH];
    intros x t Heq Hstart.
  - subst text. rewrite (occurs_suffix _ _ _ Hfree) in Hstart. discriminate.
  - apply sapp_eq_app in Heq as [[y [-> Hy]] | [y [Hne [-> ->]]]].
    + apply sapp_eq_app in Hy as [[z [-> ->]] | [z [Hz [Hcall ->]]]].
      * exact (IH _ _ eq_refl Hstart).
      * destruct y as [|c y].
        -- change ("" ++ z) with z in Hcall. subst z. eauto 12.
        -- exfalso. unfold read_file_call in Hcall.
           rewrite !sapp_cons in Hcall. injection Hcall as _ Hcall.
           change ("" ++ "OOL:" ++ "read_file" ++ "(" ++ args ++ ")")
             with ("OOL:" ++ "read_file" ++ "(" ++ args ++ ")") in Hcall.
           pose proof (tails_suffix y z Hz) as Hin. rewrite <- Hcall in Hin.
           rewrite (call_interior entire why args rest z Hw Hargs Hin) in Hstart.
           discriminate.
    + exfalso. unfold read_file_call in Hstart.
      rewrite !sapp_assoc in Hstart.
      rewrite (no_start_before_copy "T" "OOL:" (x ++ y) y) in Hstart;
        [discriminate | reflexivity | exact Hfree | now apply tails_suffix].
Qed.

(** *** The calls found in a piece of a text of calls *)

Lemma call_prefix_no_paren (entire : bool) (why args b z : string) :
  plain why = true -> read_file_args target entire s e why args ->
  z <> "" ->
  read_file_call args = b ++ z ->
  Str.has_char ")"%char b = false.
Proof.
  intros Hw Hargs Hz Hcall.
  assert (Hbody : Str.has_char ")"%char
            ("TOOL:" ++ "read_file" ++ "(" ++ args) = false).
  { rewrite !has_char_app.
    rewrite (args_no_paren target entire s e why target_plain Hw args Hargs).
    reflexivity. }
  unfold read_file_call in Hcall.
  replace ("TOOL:" ++ "read_file" ++ "(" ++ args ++ ")")
    with (("TOOL:" ++ "read_file" ++ "(" ++ args) ++ ")") in Hcall
    by (now rewrite !sapp_assoc).
  apply sapp_eq_app in Hcall as [[x [-> Hx]] | [x [Hx [Hb _]]]].
  - destruct x as [|c x]; [now rewrite sapp_nil_r|].
    exfalso. rewrite sapp_cons in Hx. injection Hx as _ Hx.
    destruct x; [change ("" ++ z) with z in Hx; congruence | discriminate].
  - rewrite Hb, has_char_app in Hbody. now apply orb_false_elim in Hbody as [Hbody _].
Qed.

Lemma findall_call (entire : bool) (why args rest : string) :
  plain why = true -> read_file_args target entire s e why args ->
  Re.findall tool_pattern (read_file_call args ++ rest) =
  ["read_file"; args] :: Re.findall tool_pattern rest.
Proof.
  intros Hw Hargs.
  pose (m := "OOL:" ++ "read_file" ++ "(" ++ args ++ ")").
  assert (H : Re.match_here tool_pattern (String "T" m ++ rest) =
              Some (["read_file"; args], rest)).
  { change (String "T" m) with (read_file_call args).
    unfold read_file_call. rewrite !sapp_assoc.
    apply tool_pattern_here.
    exact (args_no_paren target entire s e why target_plain Hw args Hargs). }
  exact (findall_here _ _ _ _ _ H).
Qed.

Lemma findall_calls (text : string) (calls : list (bool * string)) :
  calls_text target s e text calls ->
  forall n b,
    (String.length b <= n)%nat -> substring b text ->
    Forall (call_match target s e) (Re.findall tool_pattern b).
Proof.
  intros Htext n. induction n as [|n IH]; intros b Hlen Hsub.
  - destruct b; [|simpl in Hlen; lia]. constructor.
  - destruct b as [|c b]; [constructor|].
    assert (Hb : substring b text)
      by (eapply substring_trans; [|exact Hsub];
          apply substring_cons, substring_refl).
    assert (Hskip : Re.match_here tool_pattern (String c b) = None ->
                    Forall (call_match target s e)
                      (Re.findall tool_pattern (String c b))).
    { intros Hnone. rewrite findall_step by exact Hnone.
      apply IH; [simpl in Hlen; lia | exact Hb]. }
    destruct (Str.startswith "TOOL:" (String c b)) eqn:Hstart;
      [|now apply Hskip, tool_pattern_needs_marker].
    destruct Hsub as [u [v Huv]].
    destruct (marker_opens_call text calls Htext u (String c b ++ v) Huv
                (startswith_more _ _ _ Hstart))
      as [entire [why [args [rest [calls' [Hw [Hargs [Hcall Hrest]]]]]]]].
    apply sapp_eq_app in Hcall as [[z [Hz ->]] | [z [Hz [Hbz ->]]]].
    + destruct z as [|cz z].
      * rewrite sapp_nil_r in Hz.
        rewrite <- Hz, <- (sapp_nil_r (read_file_call _)).
        rewrite (findall_call entire why) by assumption.
        constructor; [exists entire, why, args; now repeat split | constructor].
      * apply Hskip, tool_pattern_needs_paren.
        now apply (call_prefix_no_paren entire why args (String c b)
                     (String cz z)).
    + rewrite Hbz, (findall_call entire why) by assumption.
      constructor; [exists entire, why, args; now repeat split|].
      apply IH.
      * apply (f_equal String.length) in Hbz. rewrite slength_app in Hbz.
        unfold read_file_call in Hbz. rewrite sapp_cons in Hbz.
        simpl in Hbz, Hlen. lia.
      * exists (u ++ read_file_call args), v.
        rewrite Huv, Hbz. now rewrite !sapp_assoc.
Qed.

Let call_id : string :=
  "read_file" ++ ":" ++ target ++ ":" ++ Str.numeral s ++ ":" ++ Str.numeral e.

(** A call whose identity is already seen leaves the state of the loop as
    it is. *)
Lemma parse_match_seen (st : loop_state) (m : list string) :
  call_match target s e m -> call_id ∈ snd st -> parse_match st m = st.
Proof.
  intros [entire [why [args [Hw [Hargs ->]]]]] Hseen.
  rewrite (parse_match_call target entire s e why args) by assumption.
  unfold add_call. fold call_id. now rewrite decide_True.
Qed.

Lemma fold_parse_match_seen (ms : list (list string)) (st : loop_state) :
  Forall (call_match target s e) ms -> call_id ∈ snd st ->
  fold_left parse_match ms st = st.
Proof.
  induction 1 as [|m ms Hm Hms IH]; intros Hseen; [reflexivity|].
  simpl. rewrite parse_match_seen by assumption. now apply IH.
Qed.

Lemma block_matches (text : string) (calls : list (bool * string))
    (blocks : list (list string)) :
  calls_text target s e text calls ->
  Forall (Forall (fun g => substring g text)) blocks ->
  Forall (call_match target s e)
    (List.flat_map (fun code_block => Re.findall tool_pattern (group code_block 1))
       blocks).
Proof.
  intros Htext Hblocks. induction Hblocks as [|block blocks Hblock _ IH];
    [constructor|].
  simpl. apply Forall_app. split; [|exact IH].
  apply (findall_calls text calls Htext (String.length (group block 1)));
    [lia|].
  unfold group. simpl.
  destruct Hblock as [|g gs Hg _]; [apply substring_nil | exact Hg].
Qed.

Lemma parse_tool_calls_calls (text : string) (entire : bool) (why : string)
    (calls : list (bool * string)) :
  calls_text target s e text ((entire, why) :: calls) ->
  parse_tool_calls text = [("read_file", read_file_kwargs target entire s e why)].
Proof.
  intros Htext. pose proof Htext as Hinv.
  inversion Hinv as [|free args entire' why' rest calls' Hfree Hw Hargs Hrest];
    subst.
  unfold parse_tool_calls.
  rewrite findall_skip.
  2:{ intros u Hu. apply tool_pattern_needs_marker.
      unfold read_file_call. rewrite !sapp_assoc.
      now apply (no_start_before_copy "T" "OOL:" free u). }
  rewrite (findall_call entire why) by assumption.
  cbn [List.app fold_left].
  rewrite (parse_match_call target entire s e why args) by assumption.
  unfold add_call at 1. cbn [fst snd].
  rewrite decide_False by (apply not_elem_of_empty).
  rewrite fold_parse_match_seen.
  - reflexivity.
  - apply Forall_app. split.
    + apply (findall_calls _ _ Htext (String.length rest)); [lia|].
      exists (free ++ read_file_call args), "".
      now rewrite sapp_nil_r, !sapp_assoc.
    + apply (block_matches _ _ _ Htext). apply findall_from_reads.
  - cbn [snd]. fold call_id. apply elem_of_union_l, elem_of_singleton.
    reflexivity.
Qed.

End CallsText.

(** ** Extraction of [read_file] calls *)



